(** * Mala inventory: the reorder-point calculator, the REST handlers over
      the [items] table and the optimistic edit of the client view.

    The development follows the two source files:
    - [src/App.tsx]: [calculateSafetyStock], [calculateReorderPoint],
      [getStatus], [handleUpdate];
    - the Express server: [POST/PUT/DELETE/GET /api/items] over one SQLite
      table with an [AUTOINCREMENT] key and a [NOT NULL] name.

    JavaScript numbers are IEEE-754 binary64 values.  They are modelled by
    the Standard Library's executable specification [SpecFloat] at
    precision 53 and maximal exponent 1024, so every product, sum and
    difference below is the correctly rounded one the engine computes. *)

From Stdlib Require Import ZArith QArith Bool.
From Stdlib Require Import Floats.SpecFloat.
From stdpp Require Import gmap strings list sorting.

Local Open Scope Z_scope.

(** ** JavaScript numbers *)

Module Number.

Definition prec : Z := 53.
Definition emax : Z := 1024.

Definition number : Type := spec_float.

Definition NaN : number := S754_nan.

(** The Number value of a mathematical integer (the literal [0], [5], ...). *)
Definition of_Z (z : Z) : number := binary_normalize prec emax z 0 false.

Definition mul (x y : number) : number := SFmul prec emax x y.
Definition add (x y : number) : number := SFadd prec emax x y.
Definition sub (x y : number) : number := SFsub prec emax x y.

(** [x <= y], [x < y] and [x === y] on numbers: false as soon as one side
    is [NaN], and the two zeros are equal. *)
Definition leb (x y : number) : bool := SFleb x y.
Definition ltb (x y : number) : bool := SFltb x y.
Definition eqb (x y : number) : bool := SFeqb x y.

Definition is_nan (x : number) : bool :=
  match x with S754_nan => true | _ => false end.

Definition is_finite (x : number) : bool :=
  match x with S754_zero _ | S754_finite _ _ _ => true | _ => false end.

(** [Math.max(x, y)]: [NaN] if either argument is, and [+0] is larger
    than [-0]. *)
Definition Math_max (x y : number) : number :=
  match SFcompare x y with
  | None => NaN
  | Some Lt => y
  | Some Gt => x
  | Some Eq => match x with S754_zero true => y | _ => x end
  end.

(** *** [Number.prototype.toFixed] and [parseFloat]

    The text [toFixed] produces is kept as data: the sign and the integer
    [n] whose last [f] digits are the decimals, or one of the three
    non-decimal forms. *)
Inductive fixed_text : Type :=
  | TextNaN
  | TextInfinity (neg : bool)
  | TextToString (x : number)
  | TextDecimal (neg : bool) (n : Z) (f : Z).

(** [10^21 <= m * 2^e], the bound above which [toFixed] falls back to
    [ToString]. *)
Definition at_least_1e21 (m : positive) (e : Z) : bool :=
  if 0 <=? e then 10 ^ 21 <=? Z.pos m * 2 ^ e
  else 10 ^ 21 * 2 ^ (- e) <=? Z.pos m.

(** The integer [n] for which [n / 10^f - m * 2^e] is as close to zero as
    possible, the larger one if there are two: [floor (m * 2^e * 10^f + 1/2)]. *)
Definition nearest_scaled (m : positive) (e : Z) (f : Z) : Z :=
  if 0 <=? e then Z.pos m * 2 ^ e * 10 ^ f
  else (2 * Z.pos m * 10 ^ f + 2 ^ (- e)) / 2 ^ (1 - e).

Definition toFixed (x : number) (f : Z) : fixed_text :=
  match x with
  | S754_nan => TextNaN
  | S754_infinity s => TextInfinity s
  | S754_zero _ => TextDecimal false 0 f
  | S754_finite s m e =>
      if at_least_1e21 m e then TextToString x
      else TextDecimal s (nearest_scaled m e f) f
  end.

(** [parseFloat] of such a text: the double nearest to the decimal it
    spells (ties to even), that is the correctly rounded quotient of [n]
    by [10^f]; [ToString] output reads back as the number it was printed
    from. *)
Definition parseFloat (t : fixed_text) : number :=
  match t with
  | TextNaN => NaN
  | TextInfinity s => S754_infinity s
  | TextToString x => x
  | TextDecimal s n f =>
      match n with
      | Z.pos p =>
          SFdiv prec emax (S754_finite s p 0)
                          (S754_finite false (Z.to_pos (10 ^ f)) 0)
      | _ => S754_zero s
      end
  end.

(** The spec's [round2], rounding to two decimal places, as the code
    writes it: [parseFloat(x.toFixed(2))]. *)
Definition round2 (x : number) : number := parseFloat (toFixed x 2).

(** The Number a decimal literal denotes: [decimal 3 2] is [0.03]. *)
Definition decimal (n : Z) (f : Z) : number :=
  parseFloat (TextDecimal (n <? 0) (Z.abs n) f).

(** [0 <= x] *)
Definition nonneg (x : number) : bool := leb (of_Z 0) x.

(** The sign bit of a number that is not [NaN]. *)
Definition has_sign (s : bool) (x : number) : bool :=
  match x with
  | S754_zero s' | S754_infinity s' | S754_finite s' _ _ => Bool.eqb s' s
  | S754_nan => false
  end.

(** The rational a finite number stands for. *)
Definition exact (x : number) : option Q :=
  match x with
  | S754_zero _ => Some 0%Q
  | S754_finite s m e =>
      Some ((if s then -1 else 1) * inject_Z (Z.pos m) * Qpower 2 e)%Q
  | _ => None
  end.

(** A finite double in canonical form: 53 digits, or fewer at the least
    exponent. *)
Definition finite_double (x : number) : bool :=
  is_finite x && valid_binary prec emax x.

End Number.

Import Number.

(** *** Arithmetic reading of the rounding performed by the operations *)

Module Rounding.

(** [m / 2^n] rounded to the nearest integer, ties to even. *)
Definition rne (m n : Z) : Z :=
  let q := m / 2 ^ n in
  let r := m mod 2 ^ n in
  match 2 * r ?= 2 ^ n with
  | Lt => q
  | Gt => q + 1
  | Eq => if Z.even q then q else q + 1
  end.

(** The shift register after [k] right shifts of a mantissa [m] that was
    exact: the quotient, the last bit shifted out and whether any earlier
    one was set. *)
Definition shifted (m k : Z) : shr_record :=
  {| shr_m := m / 2 ^ k;
     shr_r := if k =? 0 then false else Z.testbit m (k - 1);
     shr_s := if k =? 0 then false else negb (m mod 2 ^ (k - 1) =? 0) |}.

(** The double nearest to [m * 2^e], counted in units of [2^-1074], the
    least positive double. *)
Definition rounded_value (m : positive) (e : Z) : Z :=
  let fe := fexp prec emax (Z.pos (digits2_pos m) + e) in
  rne (Z.pos m) (fe - e) * 2 ^ (fe + 1074).

(** [x] is the number of sign [s] that stands for [w] units of [2^-1074],
    or the infinity of that sign when [w] is too large for a double. *)
Definition rounds_to (s : bool) (w : Z) (x : number) : Prop :=
  match x with
  | S754_zero s' => s' = s ∧ w = 0
  | S754_finite s' m e =>
      s' = s ∧ -1074 ≤ e ≤ 971 ∧ Z.pos m * 2 ^ (e + 1074) = w ∧ Z.pos m < 2 ^ 53
  | S754_infinity s' => s' = s ∧ 2 ^ (1024 + 1074) ≤ w
  | S754_nan => False
  end.

End Rounding.

Declare Scope js_scope.
Delimit Scope js_scope with js.
Notation "x * y" := (mul x y) : js_scope.
Notation "x + y" := (add x y) : js_scope.
Notation "x - y" := (sub x y) : js_scope.
Notation "x <= y" := (leb x y) : js_scope.

(** ** The client view: [src/App.tsx] *)

Module Client.

Record InventoryItem : Type := {
  id : Z;
  name : string;
  category : string;
  unit : string;
  avgDailyUsage : number;
  maxDailyUsage : number;
  leadTime : number;
  currentStock : number
}.

(** Safety Stock formula:
    (Max Daily Usage * Lead Time) - (Avg Daily Usage * Lead Time). *)
Definition calculateSafetyStock (item : InventoryItem) : number :=
  let safetyStock :=
    (maxDailyUsage item * leadTime item - avgDailyUsage item * leadTime item)%js in
  Math_max (of_Z 0) (parseFloat (toFixed safetyStock 2)).

(** Reorder Point = (Avg Daily Usage * Lead Time) + Safety Stock. *)
Definition calculateReorderPoint (item : InventoryItem) : number :=
  let safetyStock := calculateSafetyStock item in
  let demandDuringLeadTime := (avgDailyUsage item * leadTime item)%js in
  parseFloat (toFixed (demandDuringLeadTime + safetyStock)%js 2).

Inductive icon : Type := AlertCircle | CheckCircle.

Record status_badge : Type := {
  status : string;
  color : string;
  badge_icon : icon
}.

Definition getStatus (item : InventoryItem) : status_badge :=
  let reorderPoint := calculateReorderPoint item in
  if (currentStock item <= reorderPoint)%js
  then {| status := "Reorder Now"; color := "text-red-600 bg-red-100";
          badge_icon := AlertCircle |}
  else {| status := "OK"; color := "text-green-600 bg-green-100";
          badge_icon := CheckCircle |}.

End Client.

(** *** The optimistic edit, [handleUpdate] *)

Module Edit.
Import Client.

(** [keyof InventoryItem], and the type the interface gives each key. *)
Inductive key : Type :=
  | k_id | k_name | k_category | k_unit
  | k_avgDailyUsage | k_maxDailyUsage | k_leadTime | k_currentStock.

Definition field_type (k : key) : Type :=
  match k with
  | k_id => Z
  | k_name | k_category | k_unit => string
  | k_avgDailyUsage | k_maxDailyUsage | k_leadTime | k_currentStock => number
  end.

(** [{ ...item, [field]: value }] *)
Definition set_field (k : key) : field_type k -> InventoryItem -> InventoryItem :=
  match k with
  | k_id => fun v i =>
      {| id := v; name := name i; category := category i; unit := unit i;
         avgDailyUsage := avgDailyUsage i; maxDailyUsage := maxDailyUsage i;
         leadTime := leadTime i; currentStock := currentStock i |}
  | k_name => fun v i =>
      {| id := id i; name := v; category := category i; unit := unit i;
         avgDailyUsage := avgDailyUsage i; maxDailyUsage := maxDailyUsage i;
         leadTime := leadTime i; currentStock := currentStock i |}
  | k_category => fun v i =>
      {| id := id i; name := name i; category := v; unit := unit i;
         avgDailyUsage := avgDailyUsage i; maxDailyUsage := maxDailyUsage i;
         leadTime := leadTime i; currentStock := currentStock i |}
  | k_unit => fun v i =>
      {| id := id i; name := name i; category := category i; unit := v;
         avgDailyUsage := avgDailyUsage i; maxDailyUsage := maxDailyUsage i;
         leadTime := leadTime i; currentStock := currentStock i |}
  | k_avgDailyUsage => fun v i =>
      {| id := id i; name := name i; category := category i; unit := unit i;
         avgDailyUsage := v; maxDailyUsage := maxDailyUsage i;
         leadTime := leadTime i; currentStock := currentStock i |}
  | k_maxDailyUsage => fun v i =>
      {| id := id i; name := name i; category := category i; unit := unit i;
         avgDailyUsage := avgDailyUsage i; maxDailyUsage := v;
         leadTime := leadTime i; currentStock := currentStock i |}
  | k_leadTime => fun v i =>
      {| id := id i; name := name i; category := category i; unit := unit i;
         avgDailyUsage := avgDailyUsage i; maxDailyUsage := maxDailyUsage i;
         leadTime := v; currentStock := currentStock i |}
  | k_currentStock => fun v i =>
      {| id := id i; name := name i; category := category i; unit := unit i;
         avgDailyUsage := avgDailyUsage i; maxDailyUsage := maxDailyUsage i;
         leadTime := leadTime i; currentStock := v |}
  end.

(** How the awaited [fetch] ends.  The promise rejects only when the
    request itself fails; any HTTP response, a [400] included, resolves
    it, and [handleUpdate] never reads the response. *)
Inductive fetch_outcome : Type :=
  | Rejected (reason : string)
  | Resolved (http_status : Z).

(** The component state the handler touches: the item list and what was
    written to [console.error]. *)
Record view : Type := {
  items : list InventoryItem;
  console : list string
}.

Definition setItems (l : list InventoryItem) (v : view) : view :=
  {| items := l; console := console v |}.

Definition console_error (msg : string) (v : view) : view :=
  {| items := items v; console := console v ++ [msg] |}.

(** The state right after the optimistic [setItems], before the request
    is awaited. *)
Definition optimistic (id0 : Z) (k : key) (value : field_type k) (v : view) : view :=
  setItems
    (map (fun item => if Z.eqb (id item) id0 then set_field k value item else item)
         (items v))
    v.

(** [handleUpdate], called on the state [v] of the render it belongs to.
    The first component is the state it leaves when it suspends at the
    [await]; the second is what it does to the state [now] current when the
    promise settles, the captured [originalItems] in hand. *)
Definition handleUpdate (id0 : Z) (k : key) (value : field_type k) (v : view)
    : view * (fetch_outcome -> view -> view) :=
  let originalItems := items v in
  (optimistic id0 k value v,
   fun outcome now =>
     match outcome with
     | Resolved _ => now
     | Rejected reason =>
         setItems originalItems
           (console_error ("Error updating item: " +:+ reason) now)
     end).

(** The same with nothing else touching the state in between. *)
Definition handleUpdate_alone (id0 : Z) (k : key) (value : field_type k)
    (outcome : fetch_outcome) (v : view) : view :=
  let h := handleUpdate id0 k value v in snd h outcome (fst h).

End Edit.

(** ** The server: four routes over the [items] table *)

Module Server.

(** A value of the parsed JSON body.  An array or an object is carried by
    the text of its [ToString], which is what the driver binds. *)
Inductive json : Type :=
  | JNull
  | JBool (b : bool)
  | JNum (x : number)
  | JStr (s : string)
  | JCompound (text : string).

(** A value held by a table cell or bound to a [?]. *)
Inductive sqlval : Type :=
  | SNull
  | SInteger (z : Z)
  | SReal (x : number)
  | SText (s : string).

Definition is_null (v : sqlval) : bool :=
  match v with SNull => true | _ => false end.

(** What the driver binds for a destructured body field: [undefined]
    (an absent key) is left unbound, which SQLite reads as NULL. *)
Definition bind (p : option json) : sqlval :=
  match p with
  | None => SNull
  | Some JNull => SNull
  | Some (JBool b) => SInteger (if b then 1 else 0)
  | Some (JNum x) => if is_nan x then SNull else SReal x
  | Some (JStr s) => SText s
  | Some (JCompound t) => SText t
  end.

(** One row of [items] without its key: the seven declared columns.
    Column affinity, SQLite's coercion of a stored value towards the
    declared type of its column, is not part of the model: it keeps NULL
    and non-NULL apart and does not alter a value already stored. *)
Record row : Type := {
  name : sqlval;
  category : sqlval;
  unit : sqlval;
  avgDailyUsage : sqlval;
  maxDailyUsage : sqlval;
  leadTime : sqlval;
  currentStock : sqlval
}.

Inductive column : Type :=
  | c_name | c_category | c_unit
  | c_avgDailyUsage | c_maxDailyUsage | c_leadTime | c_currentStock.

Definition column_key (c : column) : string :=
  match c with
  | c_name => "name" | c_category => "category" | c_unit => "unit"
  | c_avgDailyUsage => "avgDailyUsage" | c_maxDailyUsage => "maxDailyUsage"
  | c_leadTime => "leadTime" | c_currentStock => "currentStock"
  end.

Definition cell (c : column) (r : row) : sqlval :=
  match c with
  | c_name => name r | c_category => category r | c_unit => unit r
  | c_avgDailyUsage => avgDailyUsage r | c_maxDailyUsage => maxDailyUsage r
  | c_leadTime => leadTime r | c_currentStock => currentStock r
  end.

(** The database file: the table, keyed by [id INTEGER PRIMARY KEY], and
    the [sqlite_sequence] counter [AUTOINCREMENT] keeps for it. *)
Record db : Type := {
  items : gmap Z row;
  sqlite_sequence : Z
}.

Definition MAX_ROWID : Z := 2 ^ 63 - 1.

(** The largest key of the table. *)
Definition last_rowid (t : gmap Z row) : option Z :=
  map_fold (fun k _ acc =>
              Some (match acc with None => k | Some a => Z.max k a end))
           None t.

(** The key [AUTOINCREMENT] gives the next row: one more than the largest
    key the table holds or ever held; none once the largest possible key
    has been used. *)
Definition new_rowid (d : db) : option Z :=
  let v := match last_rowid (items d) with None => 1 | Some k => k + 1 end in
  if (MAX_ROWID <? v) || (MAX_ROWID <=? sqlite_sequence d) then None
  else Some (Z.max v (sqlite_sequence d + 1)).

Inductive run_result (A : Type) : Type :=
  | Done (a : A) (d : db)
  | Failed (message : string).
Arguments Done {A} a d.
Arguments Failed {A} message.

(** [INSERT INTO items (name, ..., currentStock) VALUES (?,?,?,?,?,?,?)];
    the result is [this.lastID]. *)
Definition run_insert (params : row) (d : db) : run_result Z :=
  match new_rowid d with
  | None => Failed "SQLITE_FULL: database or disk is full"
  | Some v =>
      if is_null (name params)
      then Failed "SQLITE_CONSTRAINT: NOT NULL constraint failed: items.name"
      else Done v {| items := <[v := params]> (items d); sqlite_sequence := v |}
  end.

Definition COALESCE (p old : sqlval) : sqlval :=
  match p with SNull => old | _ => p end.

(** [SET name = COALESCE(?, name), ..., currentStock = COALESCE(?, currentStock)] *)
Definition update_row (params r : row) : row :=
  {| name := COALESCE (name params) (name r);
     category := COALESCE (category params) (category r);
     unit := COALESCE (unit params) (unit r);
     avgDailyUsage := COALESCE (avgDailyUsage params) (avgDailyUsage r);
     maxDailyUsage := COALESCE (maxDailyUsage params) (maxDailyUsage r);
     leadTime := COALESCE (leadTime params) (leadTime r);
     currentStock := COALESCE (currentStock params) (currentStock r) |}.

(** [UPDATE items SET ... WHERE id = ?]; the result is [this.changes]. *)
Definition run_update (params : row) (id0 : Z) (d : db) : run_result Z :=
  match items d !! id0 with
  | None => Done 0 d
  | Some r =>
      let r' := update_row params r in
      if is_null (name r')
      then Failed "SQLITE_CONSTRAINT: NOT NULL constraint failed: items.name"
      else Done 1 {| items := <[id0 := r']> (items d);
                     sqlite_sequence := sqlite_sequence d |}
  end.

(** [DELETE FROM items WHERE id = ?]; the result is [this.changes]. *)
Definition run_delete (id0 : Z) (d : db) : run_result Z :=
  match items d !! id0 with
  | None => Done 0 d
  | Some _ => Done 1 {| items := delete id0 (items d);
                        sqlite_sequence := sqlite_sequence d |}
  end.

(** [SELECT * FROM items]: a scan of the table, which SQLite walks in the
    order of the key. *)
Definition key_le (p q : Z * row) : Prop := p.1 ≤ q.1.

#[global] Instance key_le_dec : RelDecision key_le := λ p q, decide (p.1 ≤ q.1).

Definition run_select (d : db) : list (Z * row) :=
  merge_sort key_le (map_to_list (items d)).

(** The JSON the handlers answer with. *)
Inductive response : Type :=
  | Listed (message : string) (data : list (Z * row))
  | Created (message : string) (data : gmap string json)
  | Updated (message : string) (data : gmap string json) (changes : Z)
  | Deleted (message : string) (changes : Z)
  | Error400 (error : string).

(** [const { name, category, unit, avgDailyUsage, maxDailyUsage, leadTime,
    currentStock } = req.body], as the array of bound parameters. *)
Definition params_of (body : gmap string json) : row :=
  {| name := bind (body !! "name");
     category := bind (body !! "category");
     unit := bind (body !! "unit");
     avgDailyUsage := bind (body !! "avgDailyUsage");
     maxDailyUsage := bind (body !! "maxDailyUsage");
     leadTime := bind (body !! "leadTime");
     currentStock := bind (body !! "currentStock") |}.

(** [GET /api/items] *)
Definition get_items (d : db) : response * db :=
  (Listed "success" (run_select d), d).

(** [POST /api/items]; the answer is [{ id: this.lastID, ...req.body }], in
    which a key [id] of the body overrides the assigned one.  This is the
    object the handler hands to [res.json]; what the client reads of it
    is given by [Wire.res_json] below. *)
Definition post_items (body : gmap string json) (d : db) : response * db :=
  match run_insert (params_of body) d with
  | Failed msg => (Error400 msg, d)
  | Done lastID d' =>
      (Created "success" (body ∪ {[ "id" := JNum (of_Z lastID) ]}), d')
  end.

(** [PUT /api/items/:id]; the route parameter is taken as the integer its
    text denotes when SQLite compares it with the key. *)
Definition put_item (id0 : Z) (body : gmap string json) (d : db) : response * db :=
  match run_update (params_of body) id0 d with
  | Failed msg => (Error400 msg, d)
  | Done changes d' => (Updated "success" body changes, d')
  end.

(** [DELETE /api/items/:id] *)
Definition delete_item (id0 : Z) (d : db) : response * db :=
  match run_delete id0 d with
  | Failed msg => (Error400 msg, d)
  | Done changes d' => (Deleted "deleted" changes, d')
  end.

(** A request that changes the table, and the run of a sequence of them
    from a database: the answers, in order. *)
Inductive request : Type :=
  | POST (body : gmap string json)
  | PUT (id0 : Z) (body : gmap string json)
  | DELETE (id0 : Z).

Definition handle (q : request) (d : db) : response * db :=
  match q with
  | POST body => post_items body d
  | PUT id0 body => put_item id0 body d
  | DELETE id0 => delete_item id0 d
  end.

Fixpoint serve (qs : list request) (d : db) : list response * db :=
  match qs with
  | [] => ([], d)
  | q :: qs' =>
      let '(a, d1) := handle q d in
      let '(rest, d2) := serve qs' d1 in
      (a :: rest, d2)
  end.

(** The key a creation was given: the [lastID] behind a [Created] answer. *)
Definition assigned (q : request) (d : db) : option Z :=
  match q with
  | POST body =>
      match run_insert (params_of body) d with
      | Done lastID _ => Some lastID
      | Failed _ => None
      end
  | _ => None
  end.

Fixpoint assigned_ids (qs : list request) (d : db) : list Z :=
  match qs with
  | [] => []
  | q :: qs' =>
      match assigned q d with
      | Some v => v :: assigned_ids qs' (snd (handle q d))
      | None => assigned_ids qs' (snd (handle q d))
      end
  end.

End Server.

(** ** The client handlers over the server

    What the other handlers of [src/App.tsx] send, and what they do with
    the answer, with the requests served by the routes above. *)

Module Wire.
Import Server.

(** A number after [JSON.stringify] on one side and [JSON.parse] on the
    other: a finite double comes back as itself, [-0] as [0], and [NaN]
    and the infinities as [null]. *)
Definition json_of_number (x : number) : json :=
  match x with
  | S754_zero _ => JNum (S754_zero false)
  | S754_finite _ _ _ => JNum x
  | _ => JNull
  end.

(** What the client reads of a value the handler hands to [res.json]: a
    number goes through [JSON.stringify] and comes back as above, a
    string, a boolean and [null] come back as they are.  An array or an
    object is serialised member by member; the text the model keeps of it
    does not determine the result, hence [None]. *)
Definition res_json (v : json) : option json :=
  match v with
  | JNum x => Some (json_of_number x)
  | JCompound _ => None
  | _ => Some v
  end.

(** [data.message] of a parsed answer: the error answer has none. *)
Definition message_of (a : response) : option string :=
  match a with
  | Listed m _ | Created m _ | Updated m _ _ | Deleted m _ => Some m
  | Error400 _ => None
  end.

Definition http_status_of (a : response) : Z :=
  match a with Error400 _ => 400 | _ => 200 end.

(** Whether the request reaches the server. *)
Inductive network : Type :=
  | Online
  | Offline (reason : string).

(** [keyof InventoryItem] as the property name sent in [{ [field]: value }]. *)
Definition key_name (k : Edit.key) : string :=
  match k with
  | Edit.k_id => "id" | Edit.k_name => "name" | Edit.k_category => "category"
  | Edit.k_unit => "unit" | Edit.k_avgDailyUsage => "avgDailyUsage"
  | Edit.k_maxDailyUsage => "maxDailyUsage" | Edit.k_leadTime => "leadTime"
  | Edit.k_currentStock => "currentStock"
  end.

Definition json_of_value (k : Edit.key) : Edit.field_type k -> json :=
  match k with
  | Edit.k_id => fun v => json_of_number (of_Z v)
  | Edit.k_name | Edit.k_category | Edit.k_unit => fun v => JStr v
  | Edit.k_avgDailyUsage | Edit.k_maxDailyUsage | Edit.k_leadTime
  | Edit.k_currentStock => fun v => json_of_number v
  end.

(** [JSON.stringify({ [field]: value })] *)
Definition update_body (k : Edit.key) (value : Edit.field_type k) : gmap string json :=
  {[ key_name k := json_of_value k value ]}.

(** The row the table holds for an item that was sent whole: its texts,
    and its numbers as far as JSON carries them. *)
Definition row_of_item (item : Client.InventoryItem) : row :=
  {| name := SText (Client.name item);
     category := SText (Client.category item);
     unit := SText (Client.unit item);
     avgDailyUsage := bind (Some (json_of_number (Client.avgDailyUsage item)));
     maxDailyUsage := bind (Some (json_of_number (Client.maxDailyUsage item)));
     leadTime := bind (Some (json_of_number (Client.leadTime item)));
     currentStock := bind (Some (json_of_number (Client.currentStock item))) |}.

(** [handleUpdate] with its [PUT] served: the view it leaves and the
    database the server is left with. *)
Definition handleUpdate_served (id0 : Z) (k : Edit.key) (value : Edit.field_type k)
    (net : network) (v : Edit.view) (d : db) : Edit.view * db :=
  let h := Edit.handleUpdate id0 k value v in
  match net with
  | Offline reason => (snd h (Edit.Rejected reason) (fst h), d)
  | Online =>
      let '(a, d') := put_item id0 (update_body k value) d in
      (snd h (Edit.Resolved (http_status_of a)) (fst h), d')
  end.

(** [handleDelete]: the list loses the item only when the answer says
    ["deleted"]. *)
Definition handleDelete (id0 : Z) (net : network) (v : Edit.view) (d : db)
    : Edit.view * db :=
  match net with
  | Offline reason =>
      (Edit.console_error ("Error deleting item: " +:+ reason) v, d)
  | Online =>
      let '(a, d') := delete_item id0 d in
      if decide (message_of a = Some "deleted")
      then (Edit.setItems
              (List.filter (fun i => negb (Z.eqb (Client.id i) id0)) (Edit.items v))
              v, d')
      else (v, d')
  end.

(** [|x| < 0.005]: a finite number whose two-decimal text is ["0.00"] or
    ["-0.00"]. *)
Definition below_half_cent (x : number) : bool :=
  match x with
  | S754_zero _ => true
  | S754_finite _ m e => 200 * Z.pos m <? 2 ^ (- e)
  | _ => false
  end.

End Wire.

(** *** The form for a new item, [handleAddItem] *)

Module Form.
Import Server Wire.

(** [Partial<InventoryItem>]: every key may be missing. *)
Record NewItem : Type := {
  id : option Z;
  name : option string;
  category : option string;
  unit : option string;
  avgDailyUsage : option number;
  maxDailyUsage : option number;
  leadTime : option number;
  currentStock : option number
}.

(** The form as it starts and as it is reset to. *)
Definition blank : NewItem :=
  {| id := None; name := Some ""; category := Some "Meat"; unit := Some "kg";
     avgDailyUsage := Some (of_Z 0); maxDailyUsage := Some (of_Z 0);
     leadTime := Some (of_Z 1); currentStock := Some (of_Z 0) |}.

(** [!s] for a string that may be undefined. *)
Definition falsy (s : option string) : bool :=
  match s with
  | None => true
  | Some t => if decide (t = "") then true else false
  end.

(** [s || d] *)
Definition or_else (s : option string) (d : string) : string :=
  match s with
  | Some t => if decide (t = "") then d else t
  | None => d
  end.

(** [Number(x)] for a number that may be undefined. *)
Definition Number (x : option number) : number :=
  match x with Some n => n | None => NaN end.

(** [JSON.stringify(item)] for the item [handleAddItem] builds. *)
Definition new_body (newItem : NewItem) : gmap string json :=
  {[ "name" := JStr (or_else (name newItem) "New Item");
     "category" := JStr (or_else (category newItem) "General");
     "unit" := JStr (or_else (unit newItem) "unit");
     "avgDailyUsage" := json_of_number (Number (avgDailyUsage newItem));
     "maxDailyUsage" := json_of_number (Number (maxDailyUsage newItem));
     "leadTime" := json_of_number (Number (leadTime newItem));
     "currentStock" := json_of_number (Number (currentStock newItem)) ]}.

(** What [handleAddItem] leaves behind: the form, whether [fetchItems] was
    called, what was logged, and the database. *)
Record added : Type := {
  newItem_after : NewItem;
  fetchItems_called : bool;
  logged : list string;
  db_after : db
}.

Definition handleAddItem (newItem : NewItem) (net : network) (d : db) : added :=
  if falsy (name newItem)
  then {| newItem_after := newItem; fetchItems_called := false;
          logged := []; db_after := d |}
  else
    match net with
    | Offline reason =>
        {| newItem_after := newItem; fetchItems_called := false;
           logged := ["Error adding item: " +:+ reason]; db_after := d |}
    | Online =>
        let '(a, d') := post_items (new_body newItem) d in
        if decide (message_of a = Some "success")
        then {| newItem_after := blank; fetchItems_called := true;
                logged := []; db_after := d' |}
        else {| newItem_after := newItem; fetchItems_called := false;
                logged := []; db_after := d' |}
    end.

End Form.

(** *** Invariants of the table *)

Module Invariant.
Import Server.

(** The [NOT NULL] constraint: every stored name is a value. *)
Definition all_named (d : db) : Prop :=
  ∀ k r, items d !! k = Some r → name r ≠ SNull.

(** No stored key lies above the [AUTOINCREMENT] counter. *)
Definition sequenced (d : db) : Prop :=
  ∀ k, is_Some (items d !! k) → k ≤ sqlite_sequence d.

(** A creation whose body carries a name that is not null. *)
Definition named_creation (q : request) : bool :=
  match q with
  | POST body => negb (is_null (bind (body !! "name")))
  | _ => false
  end.

End Invariant.

(** *** Bodies whose values have the types of their columns

    The table declares three [TEXT] and four [REAL] columns, and SQLite
    converts a value of another type towards the type of its column when
    it stores it.  For a body that gives a text column a string or [null]
    and a number column a number or [null] there is nothing to convert,
    and the row stored is the row of the parameters bound.  The number
    [-0] is left out: the driver binds it as the integer [0]. *)

Module Typing.
Import Server.

Definition typed (c : column) (v : json) : bool :=
  match v with
  | JNull => true
  | JStr _ =>
      match c with c_name | c_category | c_unit => true | _ => false end
  | JNum x =>
      match c with
      | c_name | c_category | c_unit => false
      | _ => match x with S754_zero true => false | _ => true end
      end
  | _ => false
  end.

(** The body gives column [c] no value, or one of the column's type. *)
Definition typed_at (c : column) (body : gmap string json) : bool :=
  match body !! column_key c with
  | None => true
  | Some v => typed c v
  end.

Definition well_typed (body : gmap string json) : bool :=
  forallb (fun c => typed_at c body)
          [c_name; c_category; c_unit;
           c_avgDailyUsage; c_maxDailyUsage; c_leadTime; c_currentStock].

End Typing.

(** ** Concrete inputs used by the examples below *)

Module Examples.
Import Server.

(** A database file just created: no row, counter at zero. *)
Definition fresh_db : db := {| items := ∅; sqlite_sequence := 0 |}.

(** A database whose counter has reached the largest key. *)
Definition exhausted_db : db := {| items := ∅; sqlite_sequence := MAX_ROWID |}.

(** A complete body, as [handleAddItem] sends it. *)
Definition beef : gmap string json :=
  {[ "name" := JStr "Beef"; "category" := JStr "Meat"; "unit" := JStr "kg";
     "avgDailyUsage" := JNum (of_Z 5); "maxDailyUsage" := JNum (of_Z 10);
     "leadTime" := JNum (of_Z 2); "currentStock" := JNum (of_Z 15) ]}.

(** A body with a name and nothing else. *)
Definition only_name : gmap string json := {[ "name" := JStr "Tofu" ]}.

(** A body that has every field but [name]. *)
Definition nameless : gmap string json :=
  {[ "category" := JStr "Meat"; "unit" := JStr "kg";
     "avgDailyUsage" := JNum (of_Z 5); "maxDailyUsage" := JNum (of_Z 10);
     "leadTime" := JNum (of_Z 2); "currentStock" := JNum (of_Z 15) ]}.

(** The body [handleUpdate] sends for an edit of the stock level. *)
Definition restock : gmap string json := {[ "currentStock" := JNum (of_Z 25) ]}.

(** A body that sets two fields to [null] and one to a value. *)
Definition nulls : gmap string json :=
  {[ "name" := JNull; "leadTime" := JNull; "unit" := JStr "pack" ]}.

Definition beef_row : row := params_of beef.

(** The table after [beef] was posted to a fresh database. *)
Definition stocked_db : db :=
  {| items := {[ 1 := beef_row ]}; sqlite_sequence := 1 |}.

End Examples.

Module Menu.
Import Client.

Definition ingredient (a m l c : number) : InventoryItem :=
  {| id := 1; name := "Beef"; category := "Meat"; unit := "kg";
     avgDailyUsage := a; maxDailyUsage := m; leadTime := l; currentStock := c |}.

(** The item of the spec's example: A = 5, M = 10, L = 2. *)
Definition beef (stock : number) : InventoryItem :=
  ingredient (of_Z 5) (of_Z 10) (of_Z 2) stock.

(** A = 0.03, M = 0.04, L = 1.5. *)
Definition pepper : InventoryItem :=
  ingredient (decimal 3 2) (decimal 4 2) (decimal 15 1) (of_Z 0).

(** A = 0.01, M = 0.02, L = 0.5. *)
Definition saffron : InventoryItem :=
  ingredient (decimal 1 2) (decimal 2 2) (decimal 5 1) (of_Z 0).

(** A = 2, M = 1, L = -1: the maximum below the average, and a negative
    lead time. *)
Definition backdated : InventoryItem :=
  ingredient (of_Z 2) (of_Z 1) (of_Z (-1)) (of_Z 0).

(** A = M = -1, L = 1. *)
Definition returned : InventoryItem :=
  ingredient (of_Z (-1)) (of_Z (-1)) (of_Z 1) (of_Z 0).

(** [Number.MAX_VALUE], and an item whose two products both overflow. *)
Definition MAX_VALUE : number := S754_finite false 9007199254740991 971.

Definition bulk : InventoryItem :=
  ingredient MAX_VALUE MAX_VALUE (of_Z 2) (of_Z 0).

(** The same with the maximum one step below the average. *)
Definition bulk_below : InventoryItem :=
  ingredient MAX_VALUE (S754_finite false 9007199254740990 971) (of_Z 2) (of_Z 0).

(** A = 10, M = 5, L = 2: the maximum below the average. *)
Definition slow : InventoryItem :=
  ingredient (of_Z 10) (of_Z 5) (of_Z 2) (of_Z 0).

(** The view showing the example item with 15 in stock. *)
Definition shown : Edit.view :=
  {| Edit.items := [beef (of_Z 15)]; Edit.console := [] |}.

End Menu.

Module Counter.
Import Form.

(** The form filled in for a kilo-priced item, category left as it was. *)
Definition tofu_form : NewItem :=
  {| id := None; name := Some "Tofu"; category := Some ""; unit := None;
     avgDailyUsage := Some (decimal 25 1); maxDailyUsage := Some (of_Z 4);
     leadTime := None; currentStock := Some (of_Z 3) |}.

(** A view that shows the one row of [Examples.stocked_db]. *)
Definition in_step : Edit.view :=
  {| Edit.items := [Menu.beef (of_Z 15)]; Edit.console := [] |}.

(** A creation, the deletion of the row just created, a creation that is
    refused for want of a name, and another creation. *)
Definition turnover : list Server.request :=
  [Server.POST Examples.beef; Server.DELETE 2;
   Server.POST Examples.nameless; Server.POST Examples.only_name].

(** A body whose lead time overflowed to infinity when it was parsed, and
    which brings an [id] of its own. *)
Definition overflowing : gmap string Server.json :=
  <["id" := Server.JStr "x"]>
    (<["leadTime" := Server.JNum (S754_infinity false)]> Examples.beef).

End Counter.

(** ** Properties of the arithmetic *)

Module FloatFacts.
Import Rounding.

(** *** The model at a few well-known values *)

(** [0.1] is [7205759403792794 * 2^-56]. *)
Example decimal_tenth : decimal 1 1 = S754_finite false 7205759403792794 (-56).
Proof. vm_compute. reflexivity. Qed.

(** [0.1 + 0.2] is [0.30000000000000004], not [0.3]. *)
Example tenth_plus_fifth :
  (decimal 1 1 + decimal 2 1)%js = S754_finite false 5404319552844596 (-54)
  ∧ eqb (decimal 1 1 + decimal 2 1)%js (decimal 3 1) = false.
Proof. split; vm_compute; reflexivity. Qed.

(** [(1.005).toFixed(2)] is ["1.00"]: the double is just below 1.005. *)
Example toFixed_1_005 : toFixed (decimal 1005 3) 2 = TextDecimal false 100 2.
Proof. vm_compute. reflexivity. Qed.

(** [(0.125).toFixed(2)] is ["0.13"]: of two nearest, the larger. *)
Example toFixed_tie : toFixed (decimal 125 3) 2 = TextDecimal false 13 2.
Proof. vm_compute. reflexivity. Qed.

(** [(-0.001).toFixed(2)] is ["-0.00"], which reads back as [-0]. *)
Example round2_small_negative : round2 (decimal (-1) 3) = S754_zero true.
Proof. vm_compute. reflexivity. Qed.

(** From [1e21] on, [toFixed] prints the number as [ToString] does; the
    double just below still gets its two decimals. *)
Example toFixed_1e21 :
  toFixed (of_Z (10 ^ 21)) 2 = TextToString (of_Z (10 ^ 21))
  ∧ toFixed (of_Z (10 ^ 21 - 131072)) 2
    = TextDecimal false ((10 ^ 21 - 131072) * 100) 2.
Proof. split; vm_compute; reflexivity. Qed.

(** *** Rounding never changes the sign and never yields [NaN]

    These hold at every precision and exponent range. *)

Section Sign.
Variables p_ e_ : Z.

Lemma shr_1_nonneg (mrs : shr_record) : 0 ≤ shr_m mrs → 0 ≤ shr_m (shr_1 mrs).
Proof. destruct mrs as [[|[q|q|]|q] r s]; simpl; lia. Qed.

Lemma iter_pos_shr_1_nonneg (n : positive) :
  ∀ mrs, 0 ≤ shr_m mrs → 0 ≤ shr_m (SpecFloat.iter_pos shr_1 n mrs).
Proof.
  induction n as [n IH|n IH|]; intros mrs H; simpl.
  - apply IH, IH, shr_1_nonneg, H.
  - apply IH, IH, H.
  - apply shr_1_nonneg, H.
Qed.

Lemma shr_fexp_nonneg (m e : Z) (l : location) :
  0 ≤ m → 0 ≤ shr_m (fst (shr_fexp p_ e_ m e l)).
Proof.
  intros H. unfold shr_fexp, shr.
  assert (0 ≤ shr_m (shr_record_of_loc m l)) as H0 by (by destruct l as [|[]]).
  destruct (_ - e); simpl; [done| |done]. by apply iter_pos_shr_1_nonneg.
Qed.

Lemma round_nearest_even_nonneg (m : Z) (l : location) :
  0 ≤ m → 0 ≤ round_nearest_even m l.
Proof. destruct l as [|[]]; simpl; [done| |done|lia]. destruct (Z.even m); lia. Qed.

Lemma binary_round_aux_sign (s : bool) (m e : Z) (l : location) :
  0 ≤ m → has_sign s (binary_round_aux p_ e_ s m e l) = true.
Proof.
  intros H. unfold binary_round_aux.
  pose proof (shr_fexp_nonneg m e l H) as H1.
  destruct (shr_fexp p_ e_ m e l) as [mrs' e']. simpl in H1.
  pose proof (shr_fexp_nonneg _ e' loc_Exact
                (round_nearest_even_nonneg _ (loc_of_shr_record mrs') H1)) as H2.
  destruct (shr_fexp p_ e_ _ e' loc_Exact) as [mrs'' e'']. simpl in H2.
  destruct (shr_m mrs'') as [|q|q]; simpl.
  - by destruct s.
  - destruct (e'' <=? _); simpl; by destruct s.
  - lia.
Qed.

Lemma binary_round_sign (s : bool) (m : positive) (e : Z) :
  has_sign s (binary_round p_ e_ s m e) = true.
Proof.
  unfold binary_round. destruct (shl_align _ _ _) as [mz ez].
  by apply binary_round_aux_sign.
Qed.

Lemma binary_normalize_not_nan (m e : Z) (sz : bool) :
  is_nan (binary_normalize p_ e_ m e sz) = false.
Proof.
  destruct m as [|q|q]; simpl; [done| |].
  - pose proof (binary_round_sign false q e). by destruct (binary_round _ _ _ _ _).
  - pose proof (binary_round_sign true q e). by destruct (binary_round _ _ _ _ _).
Qed.

Lemma SFdiv_core_binary_nonneg (m1 m2 : positive) (e1 e2 : Z) :
  0 ≤ fst (fst (SFdiv_core_binary p_ e_ (Z.pos m1) e1 (Z.pos m2) e2)).
Proof.
  unfold SFdiv_core_binary.
  set (s := e1 - e2 - _).
  set (m' := match s with Z.pos _ => _ | 0 => _ | Z.neg _ => _ end).
  assert (0 ≤ m') as Hm'.
  { subst m'. destruct s; [lia| |lia]. apply Z.shiftl_nonneg. lia. }
  pose proof (Z.div_pos m' (Z.pos m2) Hm' eq_refl) as Hq.
  unfold Z.div in Hq. by destruct (Z.div_eucl m' (Z.pos m2)).
Qed.

Lemma SFdiv_finite_sign (sx sy : bool) (mx my : positive) (ex ey : Z) :
  has_sign (xorb sx sy)
    (SFdiv p_ e_ (S754_finite sx mx ex) (S754_finite sy my ey)) = true.
Proof.
  unfold SFdiv. pose proof (SFdiv_core_binary_nonneg mx my ex ey) as H.
  destruct (SFdiv_core_binary _ _ _ _ _ _) as [[mz ez] lz]. simpl in H.
  by apply binary_round_aux_sign.
Qed.

End Sign.

(** *** Signs of the operations *)

Lemma nonneg_cases (x : number) :
  nonneg x = true ↔
  match x with
  | S754_zero _ => True
  | S754_nan => False
  | S754_infinity s | S754_finite s _ _ => s = false
  end.
Proof. destruct x as [s|s| |s m e]; try destruct s; by vm_compute. Qed.

Lemma has_sign_false_nonneg (x : number) : has_sign false x = true → nonneg x = true.
Proof. intros H. apply nonneg_cases. by destruct x as [s|[]| |[] m e]. Qed.

Lemma has_sign_not_nan (s : bool) (x : number) : has_sign s x = true → is_nan x = false.
Proof. by destruct x. Qed.

Lemma mul_not_nan (x y : number) :
  is_finite x = true → is_finite y = true → is_nan (x * y)%js = false.
Proof.
  destruct x as [sx|sx| |sx mx ex], y as [sy|sy| |sy my ey]; try done.
  intros _ _. unfold mul. simpl.
  eapply has_sign_not_nan, binary_round_aux_sign. lia.
Qed.

Lemma mul_nonneg (x y : number) :
  is_finite x = true → is_finite y = true →
  nonneg x = true → nonneg y = true → nonneg (x * y)%js = true.
Proof.
  intros Fx Fy Hx%nonneg_cases Hy%nonneg_cases.
  destruct x as [sx|sx| |sx mx ex], y as [sy|sy| |sy my ey]; try done;
    subst; try (by apply nonneg_cases).
  unfold mul. simpl. apply has_sign_false_nonneg, binary_round_aux_sign. lia.
Qed.

Lemma sub_not_nan_r (x y : number) :
  is_nan x = false → is_finite y = true → is_nan (x - y)%js = false.
Proof.
  destruct x as [sx|sx| |sx mx ex], y as [sy|sy| |sy my ey]; try done.
  - intros _ _. by destruct sx, sy.
  - intros _ _. unfold sub. simpl. apply binary_normalize_not_nan.
Qed.

Lemma sub_not_nan_l (x y : number) :
  is_finite x = true → is_nan y = false → is_nan (x - y)%js = false.
Proof.
  destruct x as [sx|sx| |sx mx ex], y as [sy|sy| |sy my ey]; try done.
  - intros _ _. by destruct sx, sy.
  - intros _ _. unfold sub. simpl. apply binary_normalize_not_nan.
Qed.

Lemma add_nonneg (x y : number) :
  nonneg x = true → nonneg y = true → nonneg (x + y)%js = true.
Proof.
  intros Hx%nonneg_cases Hy%nonneg_cases.
  destruct x as [sx|sx| |sx mx ex], y as [sy|sy| |sy my ey]; try done;
    subst; try (by apply nonneg_cases); try (by destruct sx, sy).
  unfold add. simpl.
  destruct (shl_align mx ex _) as [mx' ?], (shl_align my ey _) as [my' ?]. simpl.
  apply has_sign_false_nonneg, binary_round_sign.
Qed.

(** *** [round2] and [Math.max] *)

Lemma parseFloat_decimal_sign (s : bool) (n f : Z) :
  has_sign s (parseFloat (TextDecimal s n f)) = true.
Proof.
  destruct n as [|q|q]; simpl; try by destruct s.
  rewrite <- (xorb_false_r s) at 1. apply SFdiv_finite_sign.
Qed.

Lemma round2_not_nan (x : number) : is_nan x = false → is_nan (round2 x) = false.
Proof.
  destruct x as [s|s| |s m e]; try done. intros _. unfold round2, toFixed.
  destruct (at_least_1e21 m e); [done|].
  eapply has_sign_not_nan, parseFloat_decimal_sign.
Qed.

Lemma round2_nonneg (x : number) : nonneg x = true → nonneg (round2 x) = true.
Proof.
  intros Hx%nonneg_cases. destruct x as [s|s| |s m e]; try done; subst.
  - by apply nonneg_cases.
  - unfold round2, toFixed. destruct (at_least_1e21 m e); [by apply nonneg_cases|].
    apply has_sign_false_nonneg, parseFloat_decimal_sign.
Qed.

(** A number that is not positive rounds to one that is not positive. *)
Lemma round2_nonpos (x : number) :
  leb x (of_Z 0) = true → leb (round2 x) (of_Z 0) = true.
Proof.
  destruct x as [s|[]| |[] m e]; try done. intros _. unfold round2, toFixed.
  destruct (at_least_1e21 m e); [done|].
  pose proof (parseFloat_decimal_sign true (nearest_scaled m e 2) 2) as H.
  by destruct (parseFloat _) as [[]|[]| |[] m' e'].
Qed.

Lemma Math_max_0_nonneg (y : number) :
  is_nan y = false → nonneg (Math_max (of_Z 0) y) = true.
Proof. destruct y as [[]|[]| |[] m e]; by vm_compute. Qed.

(** The clamp: whatever is not positive becomes the literal [0]. *)
Lemma Math_max_0_nonpos (y : number) :
  leb y (of_Z 0) = true → Math_max (of_Z 0) y = of_Z 0.
Proof. destruct y as [[]|[]| |[] m e]; by vm_compute. Qed.

(** *** Shifting right and rounding to nearest, ties to even *)

(** One shift of a non-negative mantissa halves it, remembers the bit
    that fell off and accumulates the earlier ones. *)
Lemma shr_1_spec (m : Z) (r s : bool) :
  0 ≤ m →
  shr_1 {| shr_m := m; shr_r := r; shr_s := s |} =
    {| shr_m := m / 2; shr_r := Z.odd m; shr_s := r || s |}.
Proof.
  intros H. rewrite <- Z.div2_div.
  destruct m as [|[q|q|]|q]; simpl; try done.
Qed.

Lemma mod_pow2_split (m k : Z) :
  0 < k →
  m mod 2 ^ k = m mod 2 ^ (k - 1) + 2 ^ (k - 1) * Z.b2z (Z.testbit m (k - 1)).
Proof.
  intros Hk. rewrite Z.testbit_spec' by lia.
  replace (2 ^ k) with (2 ^ (k - 1) * 2).
  - apply Z.rem_mul_r; lia.
  - rewrite Z.mul_comm, <- Z.pow_succ_r by lia. f_equal. lia.
Qed.

Lemma shifted_step (m k : Z) :
  0 ≤ m → 0 ≤ k → shr_1 (shifted m k) = shifted m (k + 1).
Proof.
  intros Hm Hk. unfold shifted. rewrite shr_1_spec by (apply Z.div_pos; lia).
  f_equal.
  - rewrite Z.pow_add_r, Z.pow_1_r by lia. rewrite Z.div_div by lia. done.
  - replace (k + 1 =? 0) with false by lia. replace (k + 1 - 1) with k by lia.
    rewrite Z.testbit_odd, Z.shiftr_div_pow2 by lia. done.
  - replace (k + 1 =? 0) with false by lia. replace (k + 1 - 1) with k by lia.
    destruct (k =? 0) eqn:E.
    + apply Z.eqb_eq in E as ->. simpl. rewrite Z.mod_1_r. done.
    + apply Z.eqb_neq in E.
      pose proof (mod_pow2_split m k ltac:(lia)) as Hmod.
      rewrite Hmod.
      assert (0 ≤ m mod 2 ^ (k - 1)) by (apply Z.mod_pos_bound; lia).
      assert (0 < 2 ^ (k - 1)) by lia.
      destruct (Z.testbit m (k - 1)); simpl.
      * symmetry. apply negb_true_iff, Z.eqb_neq. lia.
      * f_equal. f_equal. lia.
Qed.

Lemma iter_pos_shifted (m : Z) (n : positive) :
  0 ≤ m → ∀ k, 0 ≤ k →
  SpecFloat.iter_pos shr_1 n (shifted m k) = shifted m (k + Z.pos n).
Proof.
  intros Hm. induction n as [n IH|n IH|]; intros k Hk; cbn [SpecFloat.iter_pos].
  - rewrite shifted_step, !IH by lia. f_equal. lia.
  - rewrite !IH by lia. f_equal. lia.
  - by apply shifted_step.
Qed.

Lemma shr_exact (m e n : Z) :
  0 ≤ m → 0 ≤ n →
  shr (shr_record_of_loc m loc_Exact) e n = (shifted m n, e + n).
Proof.
  intros Hm Hn. unfold shr.
  assert (shr_record_of_loc m loc_Exact = shifted m 0) as ->.
  { unfold shifted. simpl. by rewrite Z.div_1_r. }
  destruct n as [|p|p]; [|by rewrite iter_pos_shifted|lia].
  f_equal. lia.
Qed.

(** Rounding the shifted mantissa by its two remembered bits is rounding
    [m / 2^n] to the nearest integer, ties to even. *)
Lemma round_shifted (m n : Z) :
  0 ≤ m → 0 ≤ n →
  round_nearest_even (shr_m (shifted m n)) (loc_of_shr_record (shifted m n)) = rne m n.
Proof.
  intros Hm Hn. unfold shifted, rne. simpl.
  destruct (n =? 0) eqn:E.
  - apply Z.eqb_eq in E as ->. simpl. rewrite Z.mod_1_r. done.
  - apply Z.eqb_neq in E.
    pose proof (mod_pow2_split m n ltac:(lia)) as Hmod.
    assert (0 ≤ m mod 2 ^ (n - 1) < 2 ^ (n - 1)) by (apply Z.mod_pos_bound; lia).
    assert (2 ^ n = 2 * 2 ^ (n - 1)) as Hp.
    { replace n with (Z.succ (n - 1)) at 1 by lia. rewrite Z.pow_succ_r by lia. done. }
    rewrite Hmod, Hp.
    destruct (Z.testbit m (n - 1)); simpl Z.b2z;
      destruct (m mod 2 ^ (n - 1) =? 0) eqn:E0; simpl.
    + apply Z.eqb_eq in E0. rewrite E0.
      replace (2 * (0 + 2 ^ (n - 1) * 1) ?= 2 * 2 ^ (n - 1)) with Eq; [done|].
      symmetry. apply Z.compare_eq_iff. lia.
    + apply Z.eqb_neq in E0.
      replace (2 * (m mod 2 ^ (n - 1) + 2 ^ (n - 1) * 1) ?= 2 * 2 ^ (n - 1)) with Gt; [done|].
      symmetry. apply Z.compare_gt_iff. lia.
    + apply Z.eqb_eq in E0. rewrite E0.
      replace (2 * (0 + 2 ^ (n - 1) * 0) ?= 2 * 2 ^ (n - 1)) with Lt; [done|].
      symmetry. apply Z.compare_lt_iff. lia.
    + apply Z.eqb_neq in E0.
      replace (2 * (m mod 2 ^ (n - 1) + 2 ^ (n - 1) * 0) ?= 2 * 2 ^ (n - 1)) with Lt; [done|].
      symmetry. apply Z.compare_lt_iff. lia.
Qed.

(** *** Rounding to the nearest integer *)

Lemma rne_bounds (m n : Z) : m / 2 ^ n ≤ rne m n ≤ m / 2 ^ n + 1.
Proof.
  unfold rne. destruct (Z.compare (2 * (m mod 2 ^ n)) (2 ^ n));
    destruct (Z.even (m / 2 ^ n)); lia.
Qed.

Lemma rne_mono (m1 m2 n : Z) : 0 ≤ n → m1 ≤ m2 → rne m1 n ≤ rne m2 n.
Proof.
  intros Hn Hm.
  assert (0 < 2 ^ n) as HP by lia.
  pose proof (Z.div_le_mono m1 m2 (2 ^ n) HP Hm) as Hq.
  destruct (Z.eq_dec (m1 / 2 ^ n) (m2 / 2 ^ n)) as [E|E].
  - pose proof (Z.div_mod m1 (2 ^ n) ltac:(lia)) as D1.
    pose proof (Z.div_mod m2 (2 ^ n) ltac:(lia)) as D2.
    unfold rne. rewrite <- E in *.
    assert (m1 mod 2 ^ n ≤ m2 mod 2 ^ n) as Hr by lia.
    destruct (Z.compare_spec (2 * (m1 mod 2 ^ n)) (2 ^ n));
      destruct (Z.compare_spec (2 * (m2 mod 2 ^ n)) (2 ^ n));
      destruct (Z.even (m1 / 2 ^ n)); lia.
  - pose proof (rne_bounds m1 n). pose proof (rne_bounds m2 n). lia.
Qed.

Lemma rne_exact (q n : Z) : 0 ≤ n → rne (q * 2 ^ n) n = q.
Proof.
  intros Hn. assert (0 < 2 ^ n) as HP by lia. unfold rne.
  rewrite Z.div_mul, Z.mod_mul by lia.
  destruct (Z.compare_spec (2 * 0) (2 ^ n)); [lia|done|lia].
Qed.

Lemma rne_scale (m n j : Z) : 0 ≤ n → 0 ≤ j → rne (m * 2 ^ j) (n + j) = rne m n.
Proof.
  intros Hn Hj. assert (0 < 2 ^ n) as HP by lia. assert (0 < 2 ^ j) as HJ by lia.
  unfold rne. rewrite Z.pow_add_r by lia.
  rewrite Z.div_mul_cancel_r, Z.mul_mod_distr_r by lia.
  replace (2 * (m mod 2 ^ n * 2 ^ j) ?= 2 ^ n * 2 ^ j)
    with (2 * (m mod 2 ^ n) ?= 2 ^ n); [done|].
  rewrite Z.mul_assoc. apply Zmult_compare_compat_r. lia.
Qed.

Lemma rne_nonneg (m n : Z) : 0 ≤ m → 0 ≤ n → 0 ≤ rne m n.
Proof.
  intros Hm Hn. pose proof (rne_bounds m n).
  pose proof (Z.div_pos m (2 ^ n) Hm ltac:(lia)). lia.
Qed.

(** *** Binary digits and powers of two *)

Lemma digits2_pos_spec (p : positive) :
  2 ^ (Z.pos (digits2_pos p) - 1) ≤ Z.pos p < 2 ^ Z.pos (digits2_pos p).
Proof.
  induction p as [p IH|p IH|]; cbn [digits2_pos]; [| |simpl; lia].
  - rewrite Pos2Z.inj_succ. replace (Z.succ (Z.pos (digits2_pos p)) - 1)
      with (Z.succ (Z.pos (digits2_pos p) - 1)) by lia.
    rewrite !Z.pow_succ_r by lia. lia.
  - rewrite Pos2Z.inj_succ. replace (Z.succ (Z.pos (digits2_pos p)) - 1)
      with (Z.succ (Z.pos (digits2_pos p) - 1)) by lia.
    rewrite !Z.pow_succ_r by lia. lia.
Qed.

Lemma fexp_eq (x : Z) : fexp prec emax x = Z.max (x - 53) (-1074).
Proof. reflexivity. Qed.

Lemma pow2_split (a b : Z) : 0 ≤ a → 0 ≤ b → 2 ^ (a + b) = 2 ^ a * 2 ^ b.
Proof. intros. by apply Z.pow_add_r. Qed.

Lemma pow2_le (a b : Z) : 0 ≤ a ≤ b → 2 ^ a ≤ 2 ^ b.
Proof. intros. apply Z.pow_le_mono_r; lia. Qed.

Lemma rne_upper (m : positive) (n : Z) :
  0 ≤ n → rne (Z.pos m) n ≤ 2 ^ Z.max 0 (Z.pos (digits2_pos m) - n).
Proof.
  intros Hn. pose proof (digits2_pos_spec m) as [_ Hd].
  set (d := Z.pos (digits2_pos m)) in *.
  destruct (Z.le_gt_cases n d) as [H|H].
  - rewrite Z.max_r by lia.
    rewrite <- (rne_exact (2 ^ (d - n)) n Hn). apply rne_mono; [done|].
    rewrite <- pow2_split by lia. replace (d - n + n) with d by lia. lia.
  - rewrite Z.max_l by lia. rewrite <- (rne_exact (2 ^ 0) n Hn).
    apply rne_mono; [done|]. pose proof (pow2_le d n ltac:(lia)). lia.
Qed.

Lemma rne_lower (m : positive) (n : Z) :
  0 ≤ n ≤ Z.pos (digits2_pos m) - 1 →
  2 ^ (Z.pos (digits2_pos m) - 1 - n) ≤ rne (Z.pos m) n.
Proof.
  intros Hn. pose proof (digits2_pos_spec m) as [Hd _].
  set (d := Z.pos (digits2_pos m)) in *.
  rewrite <- (rne_exact (2 ^ (d - 1 - n)) n ltac:(lia)). apply rne_mono; [lia|].
  rewrite <- pow2_split by lia. replace (d - 1 - n + n) with (d - 1) by lia. done.
Qed.

(** *** What the rounding of an exact mantissa returns

    Provided the mantissa has digits to spare, so that rounding is a
    shift to the right: zero when the value rounds to nothing, the
    infinity when it rounds to [2^1024] or more, and otherwise a mantissa
    below [2^53] with an exponent in range that stand for the rounded
    value. *)
Lemma binary_round_aux_exact (s : bool) (m : positive) (e : Z) :
  e ≤ fexp prec emax (Z.pos (digits2_pos m) + e) →
  match binary_round_aux prec emax s (Z.pos m) e loc_Exact with
  | S754_zero s' => s' = s ∧ rounded_value m e = 0
  | S754_finite s' m2 e2 =>
      s' = s ∧ -1074 ≤ e2 ≤ 971
      ∧ Z.pos m2 * 2 ^ (e2 + 1074) = rounded_value m e
      ∧ Z.pos m2 < 2 ^ 53
  | S754_infinity s' => s' = s ∧ 2 ^ (1024 + 1074) ≤ rounded_value m e
  | S754_nan => False
  end.
Proof.
  intros Hn. unfold rounded_value, binary_round_aux.
  set (d := Z.pos (digits2_pos m)) in *.
  set (fe := fexp prec emax (d + e)) in *.
  assert (fe = Z.max (d + e - 53) (-1074)) as Hfe by apply fexp_eq.
  unfold shr_fexp at 1. cbn [Zdigits2]. fold d. fold fe.
  rewrite shr_exact by lia.
  rewrite round_shifted by lia.
  replace (e + (fe - e)) with fe by lia.
  set (n := fe - e) in *.
  pose proof (rne_nonneg (Z.pos m) n ltac:(lia) ltac:(lia)) as Hm1.
  pose proof (rne_upper m n ltac:(lia)) as Hup. fold d in Hup.
  assert (rne (Z.pos m) n ≤ 2 ^ 53) as Hup53.
  { etrans; [exact Hup|]. apply pow2_le. lia. }
  assert (-1074 < fe → 2 ^ 52 ≤ rne (Z.pos m) n) as Hlow.
  { intros Hnorm. pose proof (rne_lower m n) as Hl. fold d in Hl.
    replace (d - 1 - n) with 52 in Hl by lia. apply Hl. lia. }
  set (m1 := rne (Z.pos m) n) in *.
  unfold shr_fexp. rewrite fexp_eq.
  destruct m1 as [|p1|p1] eqn:Em1; [| |lia].
  - (* underflow to zero *)
    cbn [Zdigits2]. unfold shr.
    destruct (Z.max (0 + fe - 53) (-1074) - fe) eqn:E; [| lia |]; simpl; split; done.
  - cbn [Zdigits2].
    pose proof (digits2_pos_spec p1) as [Hd1 Hd1'].
    set (d1 := Z.pos (digits2_pos p1)) in *.
    destruct (Z.le_gt_cases (Z.max (d1 + fe - 53) (-1074) - fe) 0) as [Hn'|Hn'].
    + (* no second shift *)
      assert (shr (shr_record_of_loc (Z.pos p1) loc_Exact) fe
                  (Z.max (d1 + fe - 53) (-1074) - fe)
              = (shr_record_of_loc (Z.pos p1) loc_Exact, fe)) as ->.
      { unfold shr. destruct (Z.max (d1 + fe - 53) (-1074) - fe); [done|lia|done]. }
      cbn [shr_m shr_record_of_loc].
      assert (Z.pos p1 < 2 ^ 53) as Hlt.
      { pose proof (pow2_le d1 53 ltac:(lia)). lia. }
      change (emax - prec) with 971.
      destruct (fe <=? 971) eqn:Efe.
      * apply Z.leb_le in Efe. repeat split; try done; lia.
      * apply Z.leb_gt in Efe. split; [done|].
        specialize (Hlow ltac:(lia)).
        replace (1024 + 1074) with (52 + (fe + 1074 - (fe - 972))) by lia.
        rewrite pow2_split by lia.
        apply Z.mul_le_mono_nonneg; [lia|lia|lia|]. apply pow2_le. lia.
    + (* carry into the next binade *)
      assert (54 ≤ d1) as Hd54 by lia.
      assert (Z.pos p1 = 2 ^ 53) as Hp1.
      { pose proof (pow2_le 53 (d1 - 1) ltac:(lia)). lia. }
      assert (d1 = 54) as Hd1eq.
      { subst d1. rewrite (Pos2Z.inj (p1) (2 ^ 53)%positive); [done|]. rewrite Hp1. done. }
      replace (Z.max (d1 + fe - 53) (-1074) - fe) with 1 by lia.
      rewrite shr_exact by lia. unfold shifted. cbn [shr_m].
      rewrite Hp1. change (2 ^ 53 / 2 ^ 1) with (Z.pos (2 ^ 52)%positive).
      change (emax - prec) with 971.
      destruct (fe + 1 <=? 971) eqn:Efe.
      * apply Z.leb_le in Efe. repeat split; try done; try lia.
        replace (fe + 1 + 1074) with (1 + (fe + 1074)) by lia.
        rewrite pow2_split by lia. change (Z.pos (2 ^ 52)) with (2 ^ 52). 
        change (2 ^ 1) with 2. change (2^53) with (2 ^ 52 * 2). lia.
      * apply Z.leb_gt in Efe. split; [done|].
        replace (1024 + 1074) with (53 + (fe + 1074 - (fe - 971))) by lia.
        rewrite pow2_split by lia.
        apply Z.mul_le_mono_nonneg; [lia|lia|lia|]. apply pow2_le. lia.
Qed.

(** *** Rounding is monotone *)

Lemma magnitude_mono (m1 m2 : positive) (e1 e2 c : Z) :
  c ≤ e1 → c ≤ e2 →
  Z.pos m1 * 2 ^ (e1 - c) ≤ Z.pos m2 * 2 ^ (e2 - c) →
  Z.pos (digits2_pos m1) + e1 ≤ Z.pos (digits2_pos m2) + e2.
Proof.
  intros H1 H2 Hle.
  pose proof (digits2_pos_spec m1) as [Hd1 _].
  pose proof (digits2_pos_spec m2) as [_ Hd2].
  set (d1 := Z.pos (digits2_pos m1)) in *. set (d2 := Z.pos (digits2_pos m2)) in *.
  assert (0 < d1) by (subst d1; lia). assert (0 < d2) by (subst d2; lia).
  assert (2 ^ (d1 - 1 + (e1 - c)) < 2 ^ (d2 + (e2 - c))) as Hpow.
  { rewrite !pow2_split by lia.
    assert (0 < 2 ^ (e1 - c)) by lia. assert (0 < 2 ^ (e2 - c)) by lia. nia. }
  apply Z.pow_lt_mono_r_iff in Hpow; lia.
Qed.

Lemma rounded_value_mono (m1 m2 : positive) (e1 e2 c : Z) :
  c ≤ e1 → c ≤ e2 →
  e1 ≤ fexp prec emax (Z.pos (digits2_pos m1) + e1) →
  e2 ≤ fexp prec emax (Z.pos (digits2_pos m2) + e2) →
  Z.pos m1 * 2 ^ (e1 - c) ≤ Z.pos m2 * 2 ^ (e2 - c) →
  rounded_value m1 e1 ≤ rounded_value m2 e2.
Proof.
  intros H1 H2 Hn1 Hn2 Hle. unfold rounded_value.
  pose proof (magnitude_mono m1 m2 e1 e2 c H1 H2 Hle) as Hmag.
  rewrite !fexp_eq in *.
  set (d1 := Z.pos (digits2_pos m1)) in *. set (d2 := Z.pos (digits2_pos m2)) in *.
  assert (0 < d1) by (subst d1; lia). assert (0 < d2) by (subst d2; lia).
  set (fe1 := Z.max (d1 + e1 - 53) (-1074)) in *.
  set (fe2 := Z.max (d2 + e2 - 53) (-1074)) in *.
  destruct (Z.eq_dec fe1 fe2) as [E|E].
  - rewrite <- E. apply Z.mul_le_mono_nonneg_r; [lia|].
    rewrite <- (rne_scale (Z.pos m1) (fe1 - e1) (e1 - c)) by lia.
    rewrite <- (rne_scale (Z.pos m2) (fe1 - e2) (e2 - c)) by lia.
    replace (fe1 - e1 + (e1 - c)) with (fe1 - c) by lia.
    replace (fe1 - e2 + (e2 - c)) with (fe1 - c) by lia.
    apply rne_mono; lia.
  - assert (fe1 < fe2) as Hlt by lia.
    pose proof (rne_upper m1 (fe1 - e1) ltac:(lia)) as Hup. fold d1 in Hup.
    pose proof (rne_lower m2 (fe2 - e2)) as Hlow. fold d2 in Hlow.
    specialize (Hlow ltac:(lia)).
    pose proof (rne_nonneg (Z.pos m1) (fe1 - e1) ltac:(lia) ltac:(lia)).
    assert (0 ≤ 2 ^ (fe1 + 1074)) as P1 by lia.
    assert (0 ≤ 2 ^ (fe2 + 1074)) as P2 by lia.
    etrans; [apply (Z.mul_le_mono_nonneg_r _ _ _ P1 Hup)|].
    etrans; [|apply (Z.mul_le_mono_nonneg_r _ _ _ P2 Hlow)].
    rewrite <- !pow2_split by lia. apply pow2_le. lia.
Qed.

(** *** Aligning two mantissas *)

Lemma iter_xO (m d : positive) : Z.pos (Pos.iter xO m d) = Z.pos m * 2 ^ Z.pos d.
Proof.
  induction d as [|d IH] using Pos.peano_ind.
  - simpl. lia.
  - rewrite Pos.iter_succ, Pos2Z.inj_succ, Z.pow_succ_r by lia.
    rewrite Pos2Z.inj_xO, IH. lia.
Qed.

Lemma shl_align_value (m : positive) (e e' : Z) :
  e' ≤ e → Z.pos (fst (shl_align m e e')) = Z.pos m * 2 ^ (e - e').
Proof.
  intros H. unfold shl_align. destruct (e' - e) as [|d|d] eqn:E; simpl.
  - replace (e - e') with 0 by lia. lia.
  - lia.
  - rewrite iter_xO. f_equal. f_equal. lia.
Qed.

(** *** Doubles in canonical form *)

Lemma bounded_canonical (m : positive) (e : Z) :
  bounded prec emax m e = true →
  e = Z.max (Z.pos (digits2_pos m) + e - 53) (-1074) ∧ e ≤ 971.
Proof.
  unfold bounded, canonical_mantissa. intros [H1 H2]%andb_true_iff.
  apply Z.eqb_eq in H1. apply Z.leb_le in H2. rewrite fexp_eq in H1.
  change (emax - prec) with 971 in H2. lia.
Qed.

Lemma digits2_pos_mul (m1 m2 : positive) :
  Z.pos (digits2_pos m1) + Z.pos (digits2_pos m2) - 1
  ≤ Z.pos (digits2_pos (m1 * m2)).
Proof.
  pose proof (digits2_pos_spec m1) as [H1 _].
  pose proof (digits2_pos_spec m2) as [H2 _].
  pose proof (digits2_pos_spec (m1 * m2)) as [_ H3].
  set (d1 := Z.pos (digits2_pos m1)) in *. set (d2 := Z.pos (digits2_pos m2)) in *.
  set (d := Z.pos (digits2_pos (m1 * m2))) in *.
  assert (0 < d1) by (subst d1; lia). assert (0 < d2) by (subst d2; lia).
  assert (0 < d) by (subst d; lia).
  rewrite Pos2Z.inj_mul in H3.
  assert (2 ^ (d1 - 1 + (d2 - 1)) < 2 ^ d) as Hpow.
  { rewrite pow2_split by lia.
    assert (0 < 2 ^ (d1 - 1)) by lia. assert (0 < 2 ^ (d2 - 1)) by lia. nia. }
  apply Z.pow_lt_mono_r_iff in Hpow; lia.
Qed.

(** The product of two doubles always has enough digits to be rounded by
    shifting right. *)
Lemma product_shifts_right (m1 m2 : positive) (e1 e2 : Z) :
  bounded prec emax m1 e1 = true → bounded prec emax m2 e2 = true →
  e1 + e2 ≤ fexp prec emax (Z.pos (digits2_pos (m1 * m2)) + (e1 + e2)).
Proof.
  intros [H1 _]%bounded_canonical [H2 _]%bounded_canonical.
  pose proof (digits2_pos_mul m1 m2). rewrite fexp_eq.
  set (d1 := Z.pos (digits2_pos m1)) in *. set (d2 := Z.pos (digits2_pos m2)) in *.
  assert (0 < d1) by (subst d1; lia). assert (0 < d2) by (subst d2; lia).
  lia.
Qed.

(** On doubles of the same sign the order of the representations is the
    order of the values. *)
Lemma canonical_lt_value (m1 m2 : positive) (e1 e2 c : Z) :
  bounded prec emax m1 e1 = true → bounded prec emax m2 e2 = true →
  c ≤ e1 → c ≤ e2 →
  (e1 < e2 ∨ (e1 = e2 ∧ Z.pos m1 < Z.pos m2)) →
  Z.pos m1 * 2 ^ (e1 - c) < Z.pos m2 * 2 ^ (e2 - c).
Proof.
  intros [H1 _]%bounded_canonical [H2 _]%bounded_canonical Hc1 Hc2 [Hlt|[-> Hlt]].
  - pose proof (digits2_pos_spec m1) as [_ Hd1].
    pose proof (digits2_pos_spec m2) as [Hd2 _].
    set (d1 := Z.pos (digits2_pos m1)) in *. set (d2 := Z.pos (digits2_pos m2)) in *.
    assert (0 < d1) by (subst d1; lia). assert (0 < d2) by (subst d2; lia).
    assert (d2 = 53) as Hd by lia. rewrite Hd in Hd2.
    assert (Z.pos m1 < 2 ^ 53) as Hm1.
    { pose proof (pow2_le d1 53 ltac:(lia)). lia. }
    assert (2 ^ (e2 - c) = 2 ^ (e2 - e1 - 1) * 2 * 2 ^ (e1 - c)) as ->.
    { replace (e2 - c) with (e2 - e1 - 1 + 1 + (e1 - c)) at 1 by lia.
      rewrite !pow2_split by lia. done. }
    assert (0 < 2 ^ (e1 - c)) by lia. assert (1 ≤ 2 ^ (e2 - e1 - 1)) by lia.
    change (2 ^ (53 - 1)) with (2 ^ 52) in Hd2. change (2 ^ 53) with (2 ^ 52 * 2) in Hm1.
    assert (Z.pos m1 < Z.pos m2 * (2 ^ (e2 - e1 - 1) * 2)) as Hm.
    { generalize dependent (2 ^ 52). intros K ? ?. nia. }
    rewrite Z.mul_assoc. apply Z.mul_lt_mono_pos_r; [lia|exact Hm].
  - assert (0 < 2 ^ (e2 - c)) by lia. nia.
Qed.

(** *** Products and differences of doubles *)

Lemma mul_rounds_to (s1 s2 : bool) (m1 m2 : positive) (e1 e2 : Z) :
  bounded prec emax m1 e1 = true → bounded prec emax m2 e2 = true →
  rounds_to (xorb s1 s2) (rounded_value (m1 * m2) (e1 + e2))
    (S754_finite s1 m1 e1 * S754_finite s2 m2 e2)%js.
Proof.
  intros B1 B2. unfold mul, SFmul, rounds_to.
  apply binary_round_aux_exact. by apply product_shifts_right.
Qed.

Lemma has_sign_true_nonpos (x : number) :
  has_sign true x = true → leb x (of_Z 0) = true.
Proof. by destruct x as [[]|[]| |[] m e]. Qed.

Lemma binary_normalize_nonpos (z e : Z) :
  z ≤ 0 → leb (binary_normalize prec emax z e false) (of_Z 0) = true.
Proof.
  intros Hz. destruct z as [|q|q]; [done|lia|].
  cbn [binary_normalize]. apply has_sign_true_nonpos, binary_round_sign.
Qed.

(** Something at most zero minus something at least zero. *)
Lemma sub_nonpos_by_sign (a b : number) :
  leb a (of_Z 0) = true → nonneg b = true → leb (a - b)%js (of_Z 0) = true.
Proof.
  intros Ha Hb%nonneg_cases.
  destruct a as [sa|[]| |[] ma ea]; try done;
    destruct b as [sb|sb| |sb mb eb]; try done; subst.
  - by destruct sa, sb.
  - by destruct sa.
  - by destruct sa.
  - done.
  - done.
  - unfold sub, SFsub. apply binary_normalize_nonpos. cbn [cond_Zopp]. lia.
Qed.

(** The difference of two finite numbers has the sign of the difference
    of their aligned mantissas, which is that of their values. *)
Lemma aligned_le (ma mb : positive) (ea eb : Z) :
  -1074 ≤ ea → -1074 ≤ eb →
  Z.pos ma * 2 ^ (ea + 1074) ≤ Z.pos mb * 2 ^ (eb + 1074) →
  Z.pos (fst (shl_align ma ea (Z.min ea eb)))
  ≤ Z.pos (fst (shl_align mb eb (Z.min ea eb))).
Proof.
  intros Ha Hb H. rewrite !shl_align_value by lia.
  set (ez := Z.min ea eb) in *.
  assert (ez ≤ ea ∧ ez ≤ eb ∧ -1074 ≤ ez) as (? & ? & ?) by (subst ez; lia).
  replace (ea + 1074) with (ea - ez + (ez + 1074)) in H by lia.
  replace (eb + 1074) with (eb - ez + (ez + 1074)) in H by lia.
  rewrite (pow2_split (ea - ez)), (pow2_split (eb - ez)) in H by lia.
  rewrite !Z.mul_assoc in H.
  apply Z.mul_le_mono_pos_r in H; [done|lia].
Qed.

Lemma finite_below_overflow (mb : positive) (eb : Z) :
  eb ≤ 971 → Z.pos mb < 2 ^ 53 → Z.pos mb * 2 ^ (eb + 1074) < 2 ^ (1024 + 1074).
Proof.
  intros He Hm. destruct (Z.le_gt_cases 0 (eb + 1074)) as [H|H].
  - change (1024 + 1074) with (53 + (971 + 1074)). rewrite (pow2_split 53) by lia.
    pose proof (pow2_le (eb + 1074) (971 + 1074) ltac:(lia)).
    assert (0 < 2 ^ (eb + 1074)) by lia. nia.
  - rewrite (Z.pow_neg_r 2 (eb + 1074)) by lia. lia.
Qed.

Lemma sub_rounds_to_pos (a b : number) (wa wb : Z) :
  rounds_to false wa a → rounds_to false wb b → is_finite b = true →
  wa ≤ wb → leb (a - b)%js (of_Z 0) = true.
Proof.
  intros Ha Hb Fb Hw.
  destruct b as [sb|sb| |sb mb eb]; cbn [rounds_to] in Hb; [|done|done|].
  - destruct Hb as [-> ->].
    destruct a as [sa|sa| |sa ma ea]; cbn [rounds_to] in Ha; [| |done|].
    + destruct Ha as [-> _]. reflexivity.
    + destruct Ha as [_ Ha]. lia.
    + destruct Ha as (_ & ? & Ha & _). lia.
  - destruct Hb as (-> & Heb & Hb & Hmb).
    pose proof (finite_below_overflow mb eb ltac:(lia) Hmb).
    destruct a as [sa|sa| |sa ma ea]; cbn [rounds_to] in Ha; [| |done|].
    + destruct Ha as [-> _]. reflexivity.
    + destruct Ha as [_ Ha]. lia.
    + destruct Ha as (-> & Hea & Ha & _).
      unfold sub, SFsub. apply binary_normalize_nonpos. cbn [cond_Zopp].
      pose proof (aligned_le ma mb ea eb ltac:(lia) ltac:(lia) ltac:(lia)). lia.
Qed.

Lemma sub_rounds_to_neg (a b : number) (wa wb : Z) :
  rounds_to true wa a → rounds_to true wb b → is_finite b = true →
  wb ≤ wa → leb (a - b)%js (of_Z 0) = true.
Proof.
  intros Ha Hb Fb Hw.
  destruct b as [sb|sb| |sb mb eb]; cbn [rounds_to] in Hb; [|done|done|].
  - destruct Hb as [-> ->].
    destruct a as [sa|sa| |sa ma ea]; cbn [rounds_to] in Ha; [| |done|].
    + destruct Ha as [-> _]. reflexivity.
    + destruct Ha as [-> _]. reflexivity.
    + destruct Ha as (-> & _). reflexivity.
  - destruct Hb as (-> & Heb & Hb & Hmb).
    destruct a as [sa|sa| |sa ma ea]; cbn [rounds_to] in Ha; [| |done|].
    + destruct Ha as [-> Ha]. exfalso. assert (0 < 2 ^ (eb + 1074)) by lia. nia.
    + destruct Ha as [-> _]. reflexivity.
    + destruct Ha as (-> & Hea & Ha & _).
      unfold sub, SFsub. apply binary_normalize_nonpos. cbn [cond_Zopp].
      pose proof (aligned_le mb ma eb ea ltac:(lia) ltac:(lia) ltac:(lia)) as H.
      rewrite Z.min_comm in H. lia.
Qed.

Lemma ltb_pos_cases (m1 m2 : positive) (e1 e2 : Z) :
  ltb (S754_finite false m1 e1) (S754_finite false m2 e2) = true →
  e1 < e2 ∨ (e1 = e2 ∧ Z.pos m1 < Z.pos m2).
Proof.
  unfold ltb, SFltb, SFcompare.
  destruct (Z.compare_spec e1 e2) as [->|H|H]; [|by left|done].
  change (Pos.compare_cont Eq m1 m2) with (Pos.compare m1 m2).
  destruct (Pos.compare_spec m1 m2); try done. right. split; [done|lia].
Qed.

Lemma ltb_neg_cases (m1 m2 : positive) (e1 e2 : Z) :
  ltb (S754_finite true m1 e1) (S754_finite true m2 e2) = true →
  e2 < e1 ∨ (e2 = e1 ∧ Z.pos m2 < Z.pos m1).
Proof.
  unfold ltb, SFltb, SFcompare.
  destruct (Z.compare_spec e1 e2) as [->|H|H]; [|done|by left].
  change (Pos.compare_cont Eq m1 m2) with (Pos.compare m1 m2).
  destruct (Pos.compare_spec m1 m2); try done. right. split; [done|lia].
Qed.

(** Multiplying by a positive double keeps the order of two doubles of the
    same sign, in value. *)
Lemma rounded_product_mono (m1 m2 ml : positive) (e1 e2 el : Z) :
  bounded prec emax m1 e1 = true → bounded prec emax m2 e2 = true →
  bounded prec emax ml el = true →
  (e1 < e2 ∨ (e1 = e2 ∧ Z.pos m1 < Z.pos m2)) →
  rounded_value (m1 * ml) (e1 + el) ≤ rounded_value (m2 * ml) (e2 + el).
Proof.
  intros B1 B2 Bl Hlt.
  pose proof (canonical_lt_value m1 m2 e1 e2 (Z.min e1 e2) B1 B2
                ltac:(lia) ltac:(lia) Hlt) as Hv.
  apply (rounded_value_mono _ _ _ _ (Z.min e1 e2 + el)); try lia.
  - by apply product_shifts_right.
  - by apply product_shifts_right.
  - rewrite !Pos2Z.inj_mul.
    replace (e1 + el - (Z.min e1 e2 + el)) with (e1 - Z.min e1 e2) by lia.
    replace (e2 + el - (Z.min e1 e2 + el)) with (e2 - Z.min e1 e2) by lia.
    nia.
Qed.

(** *** The raw difference [M * L - A * L]

    Below the average and with a non-negative lead time it is zero or
    negative, unless both products overflow. *)
Lemma raw_difference_nonpos (M A L : number) :
  valid_binary prec emax M = true →
  valid_binary prec emax A = true →
  valid_binary prec emax L = true →
  is_finite M = true → is_finite A = true → is_finite L = true →
  ltb M A = true →
  nonneg L = true →
  is_finite (A * L)%js = true →
  leb (M * L - A * L)%js (of_Z 0) = true.
Proof.
  intros VM VA VL FM FA FL Hlt HL%nonneg_cases FAL.
  destruct L as [sL|sL| |sL mL eL]; try done.
  - (* L is zero: both products are zeros *)
    destruct M as [sM|sM| |sM mM eM], A as [sA|sA| |sA mA eA]; try done;
      destruct sM, sA, sL; reflexivity.
  - subst sL. cbn [valid_binary] in VL.
    destruct M as [sM|sM| |sM mM eM]; try done;
      destruct A as [sA|sA| |sA mA eA]; try done.
    + (* 0 < A *)
      destruct sA; [by destruct sM|].
      apply sub_nonpos_by_sign; [by destruct sM|]. by apply mul_nonneg.
    + (* M < 0 *)
      destruct sM; [|done].
      apply sub_nonpos_by_sign; [|by destruct sA].
      apply has_sign_true_nonpos.
      unfold mul, SFmul. apply binary_round_aux_sign. lia.
    + cbn [valid_binary] in VM, VA. destruct sM, sA.
      * (* both negative *)
        apply ltb_neg_cases in Hlt.
        eapply sub_rounds_to_neg.
        -- by apply (mul_rounds_to true false).
        -- by apply (mul_rounds_to true false).
        -- done.
        -- by apply rounded_product_mono.
      * (* M < 0 < A *)
        apply sub_nonpos_by_sign.
        -- apply has_sign_true_nonpos. unfold mul, SFmul.
           apply binary_round_aux_sign. lia.
        -- by apply mul_nonneg.
      * done.
      * (* both positive *)
        apply ltb_pos_cases in Hlt.
        eapply sub_rounds_to_pos.
        -- by apply (mul_rounds_to false false).
        -- by apply (mul_rounds_to false false).
        -- done.
        -- by apply rounded_product_mono.
Qed.

Lemma leb_pos_cases (m1 m2 : positive) (e1 e2 : Z) :
  leb (S754_finite false m1 e1) (S754_finite false m2 e2) = true →
  (e1 < e2 ∨ (e1 = e2 ∧ Z.pos m1 < Z.pos m2)) ∨ (e1 = e2 ∧ m1 = m2).
Proof.
  unfold leb, SFleb, SFcompare.
  destruct (Z.compare_spec e1 e2) as [->|H|H]; [|by left; left|done].
  change (Pos.compare_cont Eq m1 m2) with (Pos.compare m1 m2).
  destruct (Pos.compare_spec m1 m2); try done.
  - by right.
  - left. right. split; [done|lia].
Qed.

Lemma binary_normalize_nonneg (z e : Z) :
  0 ≤ z → nonneg (binary_normalize prec emax z e false) = true.
Proof.
  intros Hz. destruct z as [|q|q]; [done| |lia].
  cbn [binary_normalize]. apply has_sign_false_nonneg, binary_round_sign.
Qed.

Lemma sub_rounds_to_pos_ge (a b : number) (wa wb : Z) :
  rounds_to false wa a → rounds_to false wb b → is_finite a = true →
  wb ≤ wa → nonneg (a - b)%js = true.
Proof.
  intros Ha Hb Fa Hw.
  destruct a as [sa|sa| |sa ma ea]; cbn [rounds_to] in Ha; [|done|done|].
  - destruct Ha as [-> ->].
    destruct b as [sb|sb| |sb mb eb]; cbn [rounds_to] in Hb; [| |done|].
    + destruct Hb as [-> _]. reflexivity.
    + destruct Hb as [_ Hb]. lia.
    + destruct Hb as (_ & ? & Hb & _). lia.
  - destruct Ha as (-> & Hea & Ha & Hma).
    pose proof (finite_below_overflow ma ea ltac:(lia) Hma).
    destruct b as [sb|sb| |sb mb eb]; cbn [rounds_to] in Hb; [| |done|].
    + destruct Hb as [-> _]. reflexivity.
    + destruct Hb as [_ Hb]. lia.
    + destruct Hb as (-> & Heb & Hb & _).
      unfold sub, SFsub. apply binary_normalize_nonneg. cbn [cond_Zopp].
      pose proof (aligned_le mb ma eb ea ltac:(lia) ltac:(lia) ltac:(lia)) as Hal.
      rewrite Z.min_comm in Hal. lia.
Qed.

(** At or above a non-negative average it is zero or positive. *)
Lemma raw_difference_nonneg (M A L : number) :
  valid_binary prec emax M = true →
  valid_binary prec emax A = true →
  valid_binary prec emax L = true →
  is_finite M = true → is_finite A = true → is_finite L = true →
  nonneg A = true →
  leb A M = true →
  nonneg L = true →
  is_finite (M * L)%js = true →
  nonneg (M * L - A * L)%js = true.
Proof.
  intros VM VA VL FM FA FL HA%nonneg_cases Hle HL%nonneg_cases FML.
  destruct L as [sL|sL| |sL mL eL]; try done.
  - destruct M as [sM|sM| |sM mM eM], A as [sA|sA| |sA mA eA]; try done;
      destruct sM, sA, sL; reflexivity.
  - subst sL. cbn [valid_binary] in VL.
    destruct A as [sA|sA| |sA mA eA]; try done;
      destruct M as [sM|sM| |sM mM eM]; try done.
    + by destruct sA, sM.
    + destruct sM; [done|].
      assert (nonneg (S754_finite false mM eM * S754_finite false mL eL)%js = true)
        as HML by (by apply mul_nonneg).
      apply nonneg_cases in HML.
      change (S754_zero sA * S754_finite false mL eL)%js
        with (S754_zero (xorb sA false)).
      destruct (S754_finite false mM eM * S754_finite false mL eL)%js
        as [s|s| |s m e]; [|done|done|].
      * by destruct s, sA.
      * subst s. by destruct sA.
    + subst sA. by destruct sM.
    + subst sA. destruct sM; [done|]. cbn [valid_binary] in VM, VA.
      eapply sub_rounds_to_pos_ge.
      * by apply (mul_rounds_to false false).
      * by apply (mul_rounds_to false false).
      * done.
      * apply leb_pos_cases in Hle as [Hlt|[-> ->]]; [|done].
        by apply rounded_product_mono.
Qed.

(** The clamp leaves a number with a clear sign bit as it is. *)
Lemma Math_max_0_keeps (r : number) :
  has_sign false r = true → Math_max (of_Z 0) r = r.
Proof. by destruct r as [[]|[]| |[] m e]. Qed.

Lemma round2_sign_false (x : number) :
  nonneg x = true → has_sign false (round2 x) = true.
Proof.
  intros Hx%nonneg_cases. destruct x as [s|s| |s m e]; try done; subst; try done.
  unfold round2, toFixed. destruct (at_least_1e21 m e); [done|].
  apply parseFloat_decimal_sign.
Qed.

End FloatFacts.

(** ** Properties of the calculator and of the optimistic edit *)

Module ClientFacts.
Import Client FloatFacts Menu.

Lemma raw_difference_not_nan (item : InventoryItem) :
  is_finite (avgDailyUsage item) = true →
  is_finite (maxDailyUsage item) = true →
  is_finite (leadTime item) = true →
  is_finite (maxDailyUsage item * leadTime item)%js = true
  ∨ is_finite (avgDailyUsage item * leadTime item)%js = true →
  is_nan (maxDailyUsage item * leadTime item
          - avgDailyUsage item * leadTime item)%js = false.
Proof.
  intros FA FM FL [H|H].
  - apply sub_not_nan_l; [done|]. by apply mul_not_nan.
  - apply sub_not_nan_r; [|done]. by apply mul_not_nan.
Qed.

Lemma finite_double_split (x : number) :
  finite_double x = true → is_finite x = true ∧ valid_binary prec emax x = true.
Proof. unfold finite_double. by intros [? ?]%andb_true_iff. Qed.

(** For finite inputs of which one product does not overflow, the safety
    stock is never [NaN] and never below zero. *)
Lemma calculateSafetyStock_nonneg (item : InventoryItem) :
  is_finite (avgDailyUsage item) = true →
  is_finite (maxDailyUsage item) = true →
  is_finite (leadTime item) = true →
  is_finite (maxDailyUsage item * leadTime item)%js = true
  ∨ is_finite (avgDailyUsage item * leadTime item)%js = true →
  nonneg (calculateSafetyStock item) = true.
Proof.
  intros FA FM FL Hfin. unfold calculateSafetyStock.
  apply Math_max_0_nonneg, round2_not_nan. by apply raw_difference_not_nan.
Qed.

(** The clamp: when the raw difference is zero or negative, the safety
    stock is the literal 0. *)
Lemma calculateSafetyStock_clamps (item : InventoryItem) :
  leb (maxDailyUsage item * leadTime item - avgDailyUsage item * leadTime item)%js
      (of_Z 0) = true →
  calculateSafetyStock item = of_Z 0.
Proof.
  intros H. unfold calculateSafetyStock.
  apply Math_max_0_nonpos. by apply round2_nonpos.
Qed.

(** C1, as the code has it.  For non-negative finite doubles A, M and L
    with M at least A, and M * L not overflowing, the safety stock is
    [round2(M * L - A * L)], each product and the difference rounded to a
    double; the clamp [max(0, _)] leaves it unchanged, and it is at least
    zero. *)
Theorem calculateSafetyStock_clamped_round2 (item : InventoryItem) :
  finite_double (avgDailyUsage item) = true →
  finite_double (maxDailyUsage item) = true →
  finite_double (leadTime item) = true →
  nonneg (avgDailyUsage item) = true →
  nonneg (leadTime item) = true →
  leb (avgDailyUsage item) (maxDailyUsage item) = true →
  is_finite (maxDailyUsage item * leadTime item)%js = true →
  calculateSafetyStock item =
    round2 (maxDailyUsage item * leadTime item
            - avgDailyUsage item * leadTime item)%js
  ∧ round2 (maxDailyUsage item * leadTime item
            - avgDailyUsage item * leadTime item)%js =
    Math_max (of_Z 0)
      (round2 (maxDailyUsage item * leadTime item
               - avgDailyUsage item * leadTime item)%js)
  ∧ nonneg (calculateSafetyStock item) = true.
Proof.
  intros [FA VA]%finite_double_split [FM VM]%finite_double_split
         [FL VL]%finite_double_split HA HL Hle FML.
  pose proof (raw_difference_nonneg _ _ _ VM VA VL FM FA FL HA Hle HL FML) as Hraw.
  pose proof (Math_max_0_keeps _ (round2_sign_false _ Hraw)) as Hmax.
  split; [exact Hmax|]. split; [by rewrite Hmax|].
  apply calculateSafetyStock_nonneg; auto.
Qed.

Lemma calculateSafetyStock_clamped_round2_witness :
  finite_double (avgDailyUsage pepper) = true
  ∧ finite_double (maxDailyUsage pepper) = true
  ∧ finite_double (leadTime pepper) = true
  ∧ nonneg (avgDailyUsage pepper) = true
  ∧ nonneg (leadTime pepper) = true
  ∧ leb (avgDailyUsage pepper) (maxDailyUsage pepper) = true
  ∧ is_finite (maxDailyUsage pepper * leadTime pepper)%js = true
  ∧ calculateSafetyStock pepper =
      round2 (maxDailyUsage pepper * leadTime pepper
              - avgDailyUsage pepper * leadTime pepper)%js
  ∧ round2 (maxDailyUsage pepper * leadTime pepper
            - avgDailyUsage pepper * leadTime pepper)%js =
      Math_max (of_Z 0)
        (round2 (maxDailyUsage pepper * leadTime pepper
                 - avgDailyUsage pepper * leadTime pepper)%js)
  ∧ nonneg (calculateSafetyStock pepper) = true.
Proof.
  assert (finite_double (avgDailyUsage pepper) = true) as DA by (vm_compute; reflexivity).
  assert (finite_double (maxDailyUsage pepper) = true) as DM by (vm_compute; reflexivity).
  assert (finite_double (leadTime pepper) = true) as DL by (vm_compute; reflexivity).
  assert (nonneg (avgDailyUsage pepper) = true) as HA by (vm_compute; reflexivity).
  assert (nonneg (leadTime pepper) = true) as HL by (vm_compute; reflexivity).
  assert (leb (avgDailyUsage pepper) (maxDailyUsage pepper) = true) as Hle
    by (vm_compute; reflexivity).
  assert (is_finite (maxDailyUsage pepper * leadTime pepper)%js = true) as FML
    by (vm_compute; reflexivity).
  do 7 (split; [assumption|]).
  exact (calculateSafetyStock_clamped_round2 pepper DA DM DL HA HL Hle FML).
Defined.

(** C1 as stated fails.  With A = 0.03, M = 0.04 and L = 1.5, all
    non-negative and M above A, the code returns 0.01, while
    [round2((M - A) * L)] is 0.02, in double arithmetic and in exact
    arithmetic alike: the exact product lies strictly between 0.015 and
    0.025.  And with A = M = [Number.MAX_VALUE] and L = 2 both products
    overflow and the result is [NaN], which is not at least zero. *)
Lemma calculateSafetyStock_differs_from_round2_of_product :
  (nonneg (avgDailyUsage pepper) = true
   ∧ nonneg (leadTime pepper) = true
   ∧ leb (avgDailyUsage pepper) (maxDailyUsage pepper) = true
   ∧ calculateSafetyStock pepper = decimal 1 2
   ∧ round2 ((maxDailyUsage pepper - avgDailyUsage pepper) * leadTime pepper)%js
     = decimal 2 2
   ∧ calculateSafetyStock pepper
     ≠ round2 ((maxDailyUsage pepper - avgDailyUsage pepper) * leadTime pepper)%js
   ∧ eqb (decimal 1 2) (decimal 2 2) = false
   ∧ match exact (maxDailyUsage pepper), exact (avgDailyUsage pepper),
           exact (leadTime pepper) with
     | Some m, Some a, Some l =>
         (15 # 1000 < (m - a) * l)%Q ∧ ((m - a) * l < 25 # 1000)%Q
     | _, _, _ => False
     end)
  ∧ (nonneg (avgDailyUsage bulk) = true
     ∧ nonneg (leadTime bulk) = true
     ∧ leb (avgDailyUsage bulk) (maxDailyUsage bulk) = true
     ∧ calculateSafetyStock bulk = NaN
     ∧ nonneg (calculateSafetyStock bulk) = false).
Proof. vm_compute. repeat split; first [reflexivity | discriminate]. Qed.

(** C2, as the code has it.  For finite inputs with A and L non-negative
    and A * L not overflowing, the reorder point is
    [round2(A * L + safetyStock)], the product and the sum rounded to a
    double, and it is at least zero. *)
Theorem calculateReorderPoint_nonneg (item : InventoryItem) :
  is_finite (avgDailyUsage item) = true →
  is_finite (maxDailyUsage item) = true →
  is_finite (leadTime item) = true →
  nonneg (avgDailyUsage item) = true →
  nonneg (leadTime item) = true →
  is_finite (avgDailyUsage item * leadTime item)%js = true →
  calculateReorderPoint item =
    round2 (avgDailyUsage item * leadTime item + calculateSafetyStock item)%js
  ∧ nonneg (calculateReorderPoint item) = true.
Proof.
  intros FA FM FL HA HL FAL. split; [done|].
  unfold calculateReorderPoint. apply round2_nonneg, add_nonneg.
  - by apply mul_nonneg.
  - unfold calculateSafetyStock. apply Math_max_0_nonneg, round2_not_nan.
    apply (raw_difference_not_nan item FA FM FL (or_intror FAL)).
Qed.

Lemma calculateReorderPoint_nonneg_witness :
  is_finite (avgDailyUsage saffron) = true
  ∧ is_finite (maxDailyUsage saffron) = true
  ∧ is_finite (leadTime saffron) = true
  ∧ nonneg (avgDailyUsage saffron) = true
  ∧ nonneg (leadTime saffron) = true
  ∧ is_finite (avgDailyUsage saffron * leadTime saffron)%js = true
  ∧ calculateReorderPoint saffron =
      round2 (avgDailyUsage saffron * leadTime saffron
              + calculateSafetyStock saffron)%js
  ∧ nonneg (calculateReorderPoint saffron) = true.
Proof.
  assert (is_finite (avgDailyUsage saffron) = true) as FA by (vm_compute; reflexivity).
  assert (is_finite (maxDailyUsage saffron) = true) as FM by (vm_compute; reflexivity).
  assert (is_finite (leadTime saffron) = true) as FL by (vm_compute; reflexivity).
  assert (nonneg (avgDailyUsage saffron) = true) as HA by (vm_compute; reflexivity).
  assert (nonneg (leadTime saffron) = true) as HL by (vm_compute; reflexivity).
  assert (is_finite (avgDailyUsage saffron * leadTime saffron)%js = true) as FAL
    by (vm_compute; reflexivity).
  do 6 (split; [assumption|]).
  exact (calculateReorderPoint_nonneg saffron FA FM FL HA HL FAL).
Defined.

(** C2 as stated fails.  With A = 0.01, M = 0.02 and L = 0.5 the safety
    stock is 0.01 and the reorder point the code returns is 0.01, while
    [round2(A * L) + safetyStock] is 0.02; in exact arithmetic too, A * L
    lies strictly between 0.005 and 0.015 and A * L + safetyStock strictly
    between 0.015 and 0.025, so both readings give 0.02.  For the item with
    A = M = -1 and L = 1 the reorder point is -1, below zero.  And with
    A = M = [Number.MAX_VALUE] and L = 2 it is [NaN], which is not at
    least zero. *)
Lemma calculateReorderPoint_differs_from_sum_of_roundings :
  (calculateSafetyStock saffron = decimal 1 2
   ∧ calculateReorderPoint saffron = decimal 1 2
   ∧ (round2 (avgDailyUsage saffron * leadTime saffron)
      + calculateSafetyStock saffron)%js = decimal 2 2
   ∧ calculateReorderPoint saffron
     ≠ (round2 (avgDailyUsage saffron * leadTime saffron)
        + calculateSafetyStock saffron)%js
   ∧ eqb (decimal 1 2) (decimal 2 2) = false
   ∧ match exact (avgDailyUsage saffron), exact (leadTime saffron),
           exact (calculateSafetyStock saffron) with
     | Some a, Some l, Some ss =>
         (5 # 1000 < a * l)%Q ∧ (a * l < 15 # 1000)%Q
         ∧ (15 # 1000 < a * l + ss)%Q ∧ (a * l + ss < 25 # 1000)%Q
     | _, _, _ => False
     end)
  ∧ (calculateReorderPoint returned = of_Z (-1)
     ∧ nonneg (calculateReorderPoint returned) = false)
  ∧ (nonneg (avgDailyUsage bulk) = true
     ∧ nonneg (leadTime bulk) = true
     ∧ calculateReorderPoint bulk = NaN
     ∧ nonneg (calculateReorderPoint bulk) = false).
Proof. vm_compute. repeat split; first [reflexivity | discriminate]. Qed.

(** C3, as the code has it.  For finite doubles A, M and L with M below A,
    L non-negative and A * L not overflowing, the raw difference is zero or
    negative and the safety stock is the literal 0. *)
Theorem calculateSafetyStock_zero_below_average (item : InventoryItem) :
  finite_double (avgDailyUsage item) = true →
  finite_double (maxDailyUsage item) = true →
  finite_double (leadTime item) = true →
  ltb (maxDailyUsage item) (avgDailyUsage item) = true →
  nonneg (leadTime item) = true →
  is_finite (avgDailyUsage item * leadTime item)%js = true →
  leb (maxDailyUsage item * leadTime item - avgDailyUsage item * leadTime item)%js
      (of_Z 0) = true
  ∧ calculateSafetyStock item = of_Z 0.
Proof.
  intros [FA VA]%finite_double_split [FM VM]%finite_double_split
         [FL VL]%finite_double_split Hlt HL FAL.
  pose proof (raw_difference_nonpos _ _ _ VM VA VL FM FA FL Hlt HL FAL) as Hraw.
  split; [exact Hraw|]. by apply calculateSafetyStock_clamps.
Qed.

Lemma calculateSafetyStock_zero_below_average_witness :
  finite_double (avgDailyUsage slow) = true
  ∧ finite_double (maxDailyUsage slow) = true
  ∧ finite_double (leadTime slow) = true
  ∧ ltb (maxDailyUsage slow) (avgDailyUsage slow) = true
  ∧ nonneg (leadTime slow) = true
  ∧ is_finite (avgDailyUsage slow * leadTime slow)%js = true
  ∧ leb (maxDailyUsage slow * leadTime slow - avgDailyUsage slow * leadTime slow)%js
        (of_Z 0) = true
  ∧ calculateSafetyStock slow = of_Z 0.
Proof.
  assert (finite_double (avgDailyUsage slow) = true) as DA by (vm_compute; reflexivity).
  assert (finite_double (maxDailyUsage slow) = true) as DM by (vm_compute; reflexivity).
  assert (finite_double (leadTime slow) = true) as DL by (vm_compute; reflexivity).
  assert (ltb (maxDailyUsage slow) (avgDailyUsage slow) = true) as Hlt
    by (vm_compute; reflexivity).
  assert (nonneg (leadTime slow) = true) as HL by (vm_compute; reflexivity).
  assert (is_finite (avgDailyUsage slow * leadTime slow)%js = true) as FAL
    by (vm_compute; reflexivity).
  do 6 (split; [assumption|]).
  exact (calculateSafetyStock_zero_below_average slow DA DM DL Hlt HL FAL).
Defined.

(** C3 as stated fails.  With A = 2, M = 1 and L = -1 the maximum is below
    the average and the safety stock is 1, not 0.  And with
    A = [Number.MAX_VALUE], M one step below it and L = 2, both products
    overflow and the safety stock is [NaN]. *)
Lemma calculateSafetyStock_positive_below_average :
  (ltb (maxDailyUsage backdated) (avgDailyUsage backdated) = true
   ∧ calculateSafetyStock backdated = of_Z 1
   ∧ calculateSafetyStock backdated ≠ of_Z 0
   ∧ eqb (of_Z 1) (of_Z 0) = false)
  ∧ (ltb (maxDailyUsage bulk_below) (avgDailyUsage bulk_below) = true
     ∧ nonneg (leadTime bulk_below) = true
     ∧ calculateSafetyStock bulk_below = NaN
     ∧ eqb NaN (of_Z 0) = false).
Proof. vm_compute. repeat split; first [reflexivity | discriminate]. Qed.

(** C4.  The status is "Reorder Now" exactly when
    [currentStock <= reorderPoint] holds, and "OK" exactly when it does
    not; for A = 5, M = 10, L = 2 the safety stock is 10 and the reorder
    point 20, a stock of 15 gives "Reorder Now" and a stock of 25 "OK". *)
Theorem getStatus_iff_at_or_below_reorder_point (item : InventoryItem) :
  (status (getStatus item) = "Reorder Now"
   ↔ (currentStock item <= calculateReorderPoint item)%js = true)
  ∧ (status (getStatus item) = "OK"
     ↔ (currentStock item <= calculateReorderPoint item)%js = false)
  ∧ (∀ stock, calculateSafetyStock (beef stock) = of_Z 10
              ∧ calculateReorderPoint (beef stock) = of_Z 20)
  ∧ status (getStatus (beef (of_Z 15))) = "Reorder Now"
  ∧ status (getStatus (beef (of_Z 25))) = "OK".
Proof.
  split; [|split; [|split; [|split]]].
  - unfold getStatus. destruct (_ <= _)%js; simpl; split; done.
  - unfold getStatus. destruct (_ <= _)%js; simpl; split; done.
  - intros stock. split; vm_compute; reflexivity.
  - vm_compute; reflexivity.
  - vm_compute; reflexivity.
Qed.

(** C8, as the code has it.  The edit is applied to the list first; when
    the request itself fails (the promise rejects) the list is put back to
    exactly what it was before the edit, whatever happened to it in
    between, and the error is logged; when any response comes back, an
    error response included, the state is left as it is. *)
Theorem handleUpdate_reverts_on_rejection
    (id0 : Z) (k : Edit.key) (value : Edit.field_type k) (v : Edit.view) :
  Edit.items (fst (Edit.handleUpdate id0 k value v)) =
    map (λ item, if Z.eqb (id item) id0 then Edit.set_field k value item else item)
        (Edit.items v)
  ∧ (∀ reason now,
       Edit.items (snd (Edit.handleUpdate id0 k value v) (Edit.Rejected reason) now)
       = Edit.items v
       ∧ Edit.console (snd (Edit.handleUpdate id0 k value v) (Edit.Rejected reason) now)
         = Edit.console now ++ ["Error updating item: " +:+ reason])
  ∧ (∀ http_status now,
       snd (Edit.handleUpdate id0 k value v) (Edit.Resolved http_status) now = now)
  ∧ (∀ reason,
       Edit.items (Edit.handleUpdate_alone id0 k value (Edit.Rejected reason) v)
       = Edit.items v).
Proof.
  split; [reflexivity|]. split; [|split]; intros; try split; reflexivity.
Qed.

(** C8 as stated fails.  When the server answers the edit of the stock
    level with a 400 error, the list keeps the edited value 25 in place of
    the 15 it had. *)
Lemma handleUpdate_keeps_edit_on_error_response :
  Edit.items (Edit.handleUpdate_alone 1 Edit.k_currentStock (of_Z 25)
                (Edit.Resolved 400) shown)
    = [beef (of_Z 25)]
  ∧ Edit.items shown = [beef (of_Z 15)]
  ∧ Edit.items (Edit.handleUpdate_alone 1 Edit.k_currentStock (of_Z 25)
                  (Edit.Resolved 400) shown)
    ≠ Edit.items shown.
Proof. split; [|split]; [vm_compute; reflexivity..|]. vm_compute. discriminate. Qed.

End ClientFacts.

(** ** Properties of the server *)

Module ServerFacts.
Import Server Invariant Typing Examples.

(** *** Row keys *)

Lemma last_rowid_bound (t : gmap Z row) (k : Z) :
  is_Some (t !! k) → ∃ m, last_rowid t = Some m ∧ k ≤ m.
Proof.
  unfold last_rowid. revert k.
  apply (map_fold_weak_ind
           (λ acc t, ∀ k, is_Some (t !! k) → ∃ m, acc = Some m ∧ k ≤ m)).
  - intros k [x Hx]. by rewrite lookup_empty in Hx.
  - intros i x m r Hi IH k Hk. destruct (decide (i = k)) as [->|Hne].
    + destruct r; eexists; split; eauto; lia.
    + rewrite lookup_insert_ne in Hk by done.
      destruct (IH k Hk) as (m' & -> & ?). eexists; split; eauto. lia.
Qed.

Lemma last_rowid_below (t : gmap Z row) (m : Z) :
  last_rowid t = Some m → is_Some (t !! m).
Proof.
  unfold last_rowid. revert m.
  apply (map_fold_weak_ind (λ acc t, ∀ m, acc = Some m → is_Some (t !! m))).
  - done.
  - intros i x t' r Hi IH m Hm. destruct r as [a|].
    + injection Hm as <-. destruct (Z.max_spec i a) as [[_ ->]|[_ ->]].
      * destruct (decide (i = a)) as [->|Hne].
        -- rewrite lookup_insert_eq. eauto.
        -- rewrite lookup_insert_ne by done. by apply IH.
      * rewrite lookup_insert_eq. eauto.
    + injection Hm as <-. rewrite lookup_insert_eq. eauto.
Qed.

(** A key [new_rowid] hands out lies above the counter and above every key
    of the table. *)
Lemma new_rowid_above (d : db) (v : Z) :
  new_rowid d = Some v →
  sqlite_sequence d < v ∧ v ≤ MAX_ROWID ∧ ∀ k, is_Some (items d !! k) → k < v.
Proof.
  unfold new_rowid. intros H.
  destruct (_ || _) eqn:E; [done|]. apply orb_false_elim in E as [E1 E2].
  apply Z.ltb_ge in E1. apply Z.leb_gt in E2. injection H as <-.
  split; [lia|]. split; [lia|].
  intros k Hk. destruct (last_rowid_bound _ _ Hk) as (m & -> & ?). lia.
Qed.

Lemma new_rowid_fresh (d : db) (v : Z) :
  new_rowid d = Some v → items d !! v = None.
Proof.
  intros H. destruct (new_rowid_above _ _ H) as (_ & _ & Hk).
  destruct (items d !! v) eqn:E; [|done].
  specialize (Hk v). rewrite E in Hk. specialize (Hk (mk_is_Some _ _ eq_refl)). lia.
Qed.

(** Keys are available as long as neither the counter nor a stored key has
    reached the largest one. *)
Lemma new_rowid_available (d : db) :
  sqlite_sequence d < MAX_ROWID →
  (∀ k, is_Some (items d !! k) → k < MAX_ROWID) →
  is_Some (new_rowid d).
Proof.
  intros Hs Hk. unfold new_rowid.
  assert (match last_rowid (items d) with None => 1 | Some k => k + 1 end
          ≤ MAX_ROWID) as Hv.
  { destruct (last_rowid (items d)) as [m|] eqn:E.
    - specialize (Hk m (last_rowid_below _ _ E)). lia.
    - unfold MAX_ROWID. lia. }
  apply Z.ltb_ge in Hv. apply Z.leb_gt in Hs. rewrite Hv, Hs. simpl. eauto.
Qed.

(** *** Bound parameters *)

Lemma cell_params_of (c : column) (body : gmap string json) :
  cell c (params_of body) = bind (body !! column_key c).
Proof. by destruct c. Qed.

Lemma cell_update_row (c : column) (params r : row) :
  cell c (update_row params r) = COALESCE (cell c params) (cell c r).
Proof. by destruct c. Qed.

Lemma COALESCE_not_null (p old : sqlval) :
  old ≠ SNull → COALESCE p old ≠ SNull.
Proof. by destruct p. Qed.

Lemma is_null_true (v : sqlval) : is_null v = true ↔ v = SNull.
Proof. by destruct v. Qed.

Lemma is_null_false (v : sqlval) : is_null v = false ↔ v ≠ SNull.
Proof. by destruct v. Qed.

(** *** What each statement does to the database *)

Lemma run_update_absent (params : row) (id0 : Z) (d : db) :
  items d !! id0 = None → run_update params id0 d = Done 0 d.
Proof. intros H. unfold run_update. by rewrite H. Qed.

Lemma run_delete_absent (id0 : Z) (d : db) :
  items d !! id0 = None → run_delete id0 d = Done 0 d.
Proof. intros H. unfold run_delete. by rewrite H. Qed.

Lemma run_update_present (params r : row) (id0 : Z) (d : db) :
  items d !! id0 = Some r → name r ≠ SNull →
  run_update params id0 d =
    Done 1 {| items := <[id0 := update_row params r]> (items d);
              sqlite_sequence := sqlite_sequence d |}.
Proof.
  intros H Hn. unfold run_update. rewrite H.
  assert (is_null (name (update_row params r)) = false) as ->; [|done].
  apply is_null_false. simpl. by apply COALESCE_not_null.
Qed.

(** No request lowers the counter. *)
Lemma handle_sequence_mono (q : request) (d : db) :
  sqlite_sequence d ≤ sqlite_sequence (snd (handle q d)).
Proof.
  destruct q as [body|id0 body|id0]; simpl.
  - unfold post_items, run_insert.
    destruct (new_rowid d) as [v|] eqn:E; simpl; [|lia].
    destruct (is_null _); simpl; [lia|].
    apply new_rowid_above in E. lia.
  - unfold put_item, run_update. destruct (items d !! id0); simpl; [|lia].
    destruct (is_null _); simpl; lia.
  - unfold delete_item, run_delete. destruct (items d !! id0); simpl; lia.
Qed.

(** A creation is given a key above the counter and outside the table, and
    leaves the counter at that key. *)
Lemma assigned_sequence (q : request) (d : db) (v : Z) :
  assigned q d = Some v →
  sqlite_sequence d < v ∧ items d !! v = None
  ∧ sqlite_sequence (snd (handle q d)) = v.
Proof.
  destruct q as [body|id0 body|id0]; simpl; try done.
  unfold post_items, run_insert.
  destruct (new_rowid d) as [w|] eqn:E; [|done].
  destruct (is_null _); [done|]. intros [= ->]. simpl.
  split; [by apply new_rowid_above in E as (? & _)|].
  split; [by apply new_rowid_fresh|done].
Qed.

Lemma assigned_ids_above (qs : list request) :
  ∀ d : db, Forall (λ v, sqlite_sequence d < v) (assigned_ids qs d).
Proof.
  induction qs as [|q qs IH]; intros d; simpl; [constructor|].
  pose proof (handle_sequence_mono q d) as Hmono.
  assert (Forall (λ v, sqlite_sequence d < v)
                 (assigned_ids qs (snd (handle q d)))) as Hrest.
  { eapply Forall_impl; [apply IH|]. simpl. intros v Hv. lia. }
  destruct (assigned q d) as [v|] eqn:E; [|done].
  constructor; [|done]. by apply assigned_sequence in E as (? & _).
Qed.

Lemma assigned_ids_NoDup (qs : list request) :
  ∀ d : db, NoDup (assigned_ids qs d).
Proof.
  induction qs as [|q qs IH]; intros d; simpl; [constructor|].
  destruct (assigned q d) as [v|] eqn:E; [|apply IH].
  constructor; [|apply IH].
  apply assigned_sequence in E as (_ & _ & Hv).
  intros Hin. pose proof (assigned_ids_above qs (snd (handle q d))) as Habove.
  rewrite Forall_forall in Habove. specialize (Habove v Hin). lia.
Qed.

(** *** Sequences of requests *)

Lemma serve_snd (q : request) (qs : list request) (d : db) :
  snd (serve (q :: qs) d) = snd (serve qs (snd (handle q d))).
Proof.
  simpl. destruct (handle q d) as [a d1]. simpl.
  by destruct (serve qs d1) as [rest d2].
Qed.

Lemma handle_keeps_sequenced (q : request) (d : db) :
  sequenced d → sequenced (snd (handle q d)).
Proof.
  unfold sequenced. intros Hd. destruct q as [body|id0 body|id0]; simpl.
  - unfold post_items, run_insert. destruct (new_rowid d) as [v|] eqn:Ev; [|done].
    destruct (is_null _); [done|]. simpl. intros k Hk.
    destruct (decide (v = k)) as [->|Hne]; [done|].
    rewrite lookup_insert_ne in Hk by done.
    apply new_rowid_above in Ev as (? & _). specialize (Hd k Hk). simpl. lia.
  - unfold put_item, run_update. destruct (items d !! id0) as [r0|] eqn:E0; [|done].
    destruct (is_null _); [done|]. simpl. intros k Hk.
    destruct (decide (id0 = k)) as [->|Hne].
    + apply Hd. by rewrite E0.
    + rewrite lookup_insert_ne in Hk by done. by apply Hd.
  - unfold delete_item, run_delete. destruct (items d !! id0) as [r0|]; [|done].
    simpl. intros k [r Hk]. apply lookup_delete_Some in Hk as [_ Hk].
    apply Hd. by rewrite Hk.
Qed.

Lemma stocked_db_sequenced : sequenced stocked_db.
Proof.
  intros k [r Hk]. simpl in *.
  apply lookup_singleton_Some in Hk as [<- _]. lia.
Qed.

Lemma serve_sequenced (qs : list request) (d : db) :
  sequenced d → sequenced (snd (serve qs d)).
Proof.
  revert d. induction qs as [|q qs IH]; intros d Hd; [done|].
  rewrite serve_snd. by apply IH, handle_keeps_sequenced.
Qed.

(** With every key at most the counter, the next key is the counter's
    successor. *)
Lemma new_rowid_next (d : db) :
  sequenced d → 0 ≤ sqlite_sequence d → sqlite_sequence d < MAX_ROWID →
  new_rowid d = Some (sqlite_sequence d + 1).
Proof.
  intros Hd H0 Hs. unfold new_rowid.
  assert (match last_rowid (items d) with None => 1 | Some k => k + 1 end
          ≤ sqlite_sequence d + 1) as Hv.
  { destruct (last_rowid (items d)) as [m|] eqn:E; [|lia].
    apply last_rowid_below in E. specialize (Hd m E). lia. }
  replace (MAX_ROWID <? _) with false by (symmetry; apply Z.ltb_ge; lia).
  replace (MAX_ROWID <=? _) with false by (symmetry; apply Z.leb_gt; lia).
  simpl. f_equal. lia.
Qed.

(** What one request does to the counter, and the key it is given. *)
Lemma handle_next (q : request) (d : db) :
  sequenced d → 0 ≤ sqlite_sequence d → sqlite_sequence d < MAX_ROWID →
  assigned q d
  = (if named_creation q then Some (sqlite_sequence d + 1) else None)
  ∧ sqlite_sequence (snd (handle q d))
    = sqlite_sequence d + (if named_creation q then 1 else 0).
Proof.
  intros Hd H0 Hs. destruct q as [body|id0 body|id0]; cbn [named_creation handle assigned].
  - unfold post_items, run_insert. rewrite (new_rowid_next d Hd H0 Hs).
    cbn [name params_of]. destruct (is_null (bind (body !! "name"))); simpl; [|done].
    split; [done|lia].
  - split; [done|]. unfold put_item, run_update.
    destruct (items d !! id0); simpl; [|lia]. destruct (is_null _); simpl; lia.
  - split; [done|]. unfold delete_item, run_delete.
    destruct (items d !! id0); simpl; lia.
Qed.

(** As long as keys are left, every creation with a name is given one. *)
Lemma assigned_ids_length (qs : list request) :
  ∀ d, sequenced d → 0 ≤ sqlite_sequence d →
       sqlite_sequence d + Z.of_nat (length qs) ≤ MAX_ROWID →
       length (assigned_ids qs d) = length (List.filter named_creation qs)
       ∧ sqlite_sequence (snd (serve qs d))
         ≤ sqlite_sequence d + Z.of_nat (length qs)
       ∧ sqlite_sequence d ≤ sqlite_sequence (snd (serve qs d)).
Proof.
  induction qs as [|q qs IH]; intros d Hd H0 Hs.
  - simpl. split; [done|]. simpl in Hs. lia.
  - rewrite serve_snd. cbn [length] in Hs.
    assert (sqlite_sequence d < MAX_ROWID) as Hlt by lia.
    destruct (handle_next q d Hd H0 Hlt) as [Ha Hq].
    destruct (IH (snd (handle q d))) as (Hlen & Hup & Hlow).
    { by apply handle_keeps_sequenced. }
    { rewrite Hq. destruct (named_creation q); lia. }
    { rewrite Hq. destruct (named_creation q); lia. }
    cbn [assigned_ids List.filter length]. rewrite Ha.
    destruct (named_creation q); cbn [length].
    + split; [by rewrite Hlen|]. lia.
    + split; [done|]. lia.
Qed.

Lemma assigned_ids_app (qs qs' : list request) :
  ∀ d, assigned_ids (qs ++ qs') d
       = assigned_ids qs d ++ assigned_ids qs' (snd (serve qs d)).
Proof.
  induction qs as [|q qs IH]; intros d; [done|].
  rewrite serve_snd. cbn [app assigned_ids]. rewrite IH.
  by destruct (assigned q d).
Qed.

Lemma elem_of_run_select (d : db) (k : Z) (r : row) :
  (k, r) ∈ run_select d ↔ items d !! k = Some r.
Proof.
  unfold run_select. rewrite merge_sort_Permutation. apply elem_of_map_to_list.
Qed.

Lemma key_le_total : Total key_le.
Proof. intros p q. unfold key_le. lia. Qed.

(** The listing is in the order of the keys. *)
Lemma run_select_sorted (d : db) : Sorted key_le (run_select d).
Proof. apply (Sorted_merge_sort key_le (Total0 := key_le_total)). Qed.

Lemma cell_params_null (body : gmap string json) (c : column) :
  cell c (params_of body) = SNull ↔ bind (body !! column_key c) = SNull.
Proof. by rewrite cell_params_of. Qed.

(** *** The claims about the routes *)

(** C5, as the code has it.  The handler validates nothing, and as long as
    a row key is available the creation succeeds exactly when the body
    carries a name that is not null: the new row is stored under the key
    the answer reports, with NULL in every column the body does not
    mention.  A body without a (non-null) name is refused by the NOT NULL
    constraint of the column: the answer is the 400 error and the database
    is untouched. *)
Theorem post_items_needs_only_a_name (body : gmap string json) (d : db) :
  sqlite_sequence d < MAX_ROWID →
  (∀ k, is_Some (items d !! k) → k < MAX_ROWID) →
  (bind (body !! "name") ≠ SNull →
     ∃ v, items d !! v = None
        ∧ post_items body d =
            (Created "success" (body ∪ {[ "id" := JNum (of_Z v) ]}),
             {| items := <[v := params_of body]> (items d);
                sqlite_sequence := v |})
        ∧ ∀ c, body !! column_key c = None → cell c (params_of body) = SNull)
  ∧ (bind (body !! "name") = SNull →
       post_items body d =
         (Error400 "SQLITE_CONSTRAINT: NOT NULL constraint failed: items.name", d)).
Proof.
  intros Hs Hk. destruct (new_rowid_available d Hs Hk) as [v Hv].
  unfold post_items, run_insert. rewrite Hv. split.
  - intros Hname. exists v. split; [by apply new_rowid_fresh|].
    apply is_null_false in Hname. simpl. rewrite Hname. split; [done|].
    intros c Hc. rewrite cell_params_of, Hc. done.
  - intros Hname. apply is_null_true in Hname. simpl. by rewrite Hname.
Qed.

Lemma post_items_needs_only_a_name_witness :
  sqlite_sequence fresh_db < MAX_ROWID
  ∧ (∀ k, is_Some (items fresh_db !! k) → k < MAX_ROWID)
  ∧ ((bind (only_name !! "name") ≠ SNull →
       ∃ v, items fresh_db !! v = None
          ∧ post_items only_name fresh_db =
              (Created "success" (only_name ∪ {[ "id" := JNum (of_Z v) ]}),
               {| items := <[v := params_of only_name]> (items fresh_db);
                  sqlite_sequence := v |})
          ∧ ∀ c, only_name !! column_key c = None →
                 cell c (params_of only_name) = SNull)
     ∧ (bind (only_name !! "name") = SNull →
          post_items only_name fresh_db =
            (Error400 "SQLITE_CONSTRAINT: NOT NULL constraint failed: items.name",
             fresh_db))).
Proof.
  assert (sqlite_sequence fresh_db < MAX_ROWID) as Hs by (vm_compute; reflexivity).
  assert (∀ k, is_Some (items fresh_db !! k) → k < MAX_ROWID) as Hk.
  { intros k [x Hx]. simpl in Hx. rewrite lookup_empty in Hx. discriminate. }
  split; [exact Hs|]. split; [exact Hk|].
  exact (post_items_needs_only_a_name only_name fresh_db Hs Hk).
Defined.

(** C5 as stated fails: a body with every field but [name] is answered
    with the 400 error and nothing is stored; and so is any body once the
    key counter is exhausted. *)
Lemma post_items_without_name_fails :
  post_items nameless fresh_db =
    (Error400 "SQLITE_CONSTRAINT: NOT NULL constraint failed: items.name",
     fresh_db)
  ∧ post_items beef exhausted_db =
      (Error400 "SQLITE_FULL: database or disk is full", exhausted_db).
Proof. split; vm_compute; reflexivity. Qed.

(** C6.  An update of a stored item answers with one change, leaves every
    column whose key is absent from the body at its stored value, and
    leaves every other row, and the key counter, as they were. *)
Theorem put_item_frame (id0 : Z) (body : gmap string json) (d : db) (r : row) :
  items d !! id0 = Some r →
  name r ≠ SNull →
  ∃ r' d',
    put_item id0 body d = (Updated "success" body 1, d')
    ∧ items d' !! id0 = Some r'
    ∧ (∀ c, body !! column_key c = None → cell c r' = cell c r)
    ∧ (∀ k, k ≠ id0 → items d' !! k = items d !! k)
    ∧ sqlite_sequence d' = sqlite_sequence d.
Proof.
  intros Hr Hn. eexists _, _. unfold put_item.
  rewrite (run_update_present _ _ _ _ Hr Hn). split; [done|]. simpl.
  split; [apply lookup_insert_eq|].
  split; [|split; [|done]].
  - intros c Hc. by rewrite cell_update_row, cell_params_of, Hc.
  - intros k Hk. by rewrite lookup_insert_ne.
Qed.

Lemma put_item_frame_witness :
  items stocked_db !! 1 = Some beef_row
  ∧ name beef_row ≠ SNull
  ∧ ∃ r' d',
      put_item 1 restock stocked_db = (Updated "success" restock 1, d')
      ∧ items d' !! 1 = Some r'
      ∧ (∀ c, restock !! column_key c = None → cell c r' = cell c beef_row)
      ∧ (∀ k, k ≠ 1 → items d' !! k = items stocked_db !! k)
      ∧ sqlite_sequence d' = sqlite_sequence stocked_db.
Proof.
  assert (items stocked_db !! 1 = Some beef_row) as Hr by (vm_compute; reflexivity).
  assert (name beef_row ≠ SNull) as Hn by (vm_compute; discriminate).
  split; [exact Hr|]. split; [exact Hn|].
  exact (put_item_frame 1 restock stocked_db beef_row Hr Hn).
Defined.

(** C7.  For an id the table does not hold, the update answers "success"
    with no change and the deletion answers "deleted" with no change, and
    neither touches the database. *)
Theorem absent_id_is_not_an_error (id0 : Z) (body : gmap string json) (d : db) :
  items d !! id0 = None →
  put_item id0 body d = (Updated "success" body 0, d)
  ∧ delete_item id0 d = (Deleted "deleted" 0, d).
Proof.
  intros H. unfold put_item, delete_item.
  by rewrite run_update_absent, run_delete_absent.
Qed.

Lemma absent_id_is_not_an_error_witness :
  items stocked_db !! 7 = None
  ∧ put_item 7 restock stocked_db = (Updated "success" restock 0, stocked_db)
  ∧ delete_item 7 stocked_db = (Deleted "deleted" 0, stocked_db).
Proof.
  assert (items stocked_db !! 7 = None) as H by (vm_compute; reflexivity).
  split; [exact H|]. exact (absent_id_is_not_an_error 7 restock stocked_db H).
Defined.

(** C9.  Along any sequence of requests from any database, the keys given
    to the created rows are pairwise distinct and all above the counter the
    sequence started from, deletions in between notwithstanding; a
    creation that is given a key is given one the table does not hold, and
    the listing after it has the new row under that key and no other.  In a
    database as SQLite keeps it, every key at most the counter and the
    counter not negative, and with keys left for the sequence and one more
    request, every creation of the sequence whose body has a name is given
    a key; and a creation with a name that follows the sequence is given a
    key that no row of the sequence was given and that the table does not
    hold, its answer has that key for [id] unless the body brings an [id]
    of its own, and the listing that follows holds one row under that key:
    its columns are NULL exactly where the body gives no value, and it is
    the row of the body's values when these have the types of their
    columns. *)
Theorem ids_are_never_reused (qs : list request) (d : db) :
  NoDup (assigned_ids qs d)
  ∧ Forall (λ v, sqlite_sequence d < v) (assigned_ids qs d)
  ∧ (∀ body v,
       assigned (POST body) d = Some v →
       items d !! v = None
       ∧ ∃ r, (∀ r', (v, r') ∈ run_select (snd (post_items body d)) ↔ r' = r)
              ∧ (∀ c, cell c r = SNull ↔ bind (body !! column_key c) = SNull)
              ∧ (well_typed body = true → r = params_of body))
  ∧ (sequenced d →
     0 ≤ sqlite_sequence d →
     sqlite_sequence d + Z.of_nat (length qs) < MAX_ROWID →
     length (assigned_ids qs d) = length (List.filter named_creation qs)
     ∧ ∀ body,
         bind (body !! "name") ≠ SNull →
         ∃ v d' data r,
           assigned (POST body) (snd (serve qs d)) = Some v
           ∧ (v ∉ assigned_ids qs d)
           ∧ items (snd (serve qs d)) !! v = None
           ∧ post_items body (snd (serve qs d)) = (Created "success" data, d')
           ∧ (body !! "id" = None → data !! "id" = Some (JNum (of_Z v)))
           ∧ get_items d' = (Listed "success" (run_select d'), d')
           ∧ (∀ r', (v, r') ∈ run_select d' ↔ r' = r)
           ∧ (∀ c, cell c r = SNull ↔ bind (body !! column_key c) = SNull)
           ∧ (well_typed body = true → r = params_of body)).
Proof.
  split; [apply assigned_ids_NoDup|]. split; [apply assigned_ids_above|].
  split.
  { intros body v Hv. split; [by apply assigned_sequence in Hv as (_ & ? & _)|].
    exists (params_of body). split; [|split; [|done]].
    - intros r'. rewrite elem_of_run_select. cbn [assigned] in Hv.
      unfold post_items, run_insert in *.
      destruct (new_rowid d) as [w|]; [|done].
      destruct (is_null _); [done|]. injection Hv as ->. cbn [snd items].
      rewrite lookup_insert_eq. split; congruence.
    - intros c. apply cell_params_null. }
  intros Hd H0 Hs.
  destruct (assigned_ids_length qs d Hd H0) as (Hlen & Hup & Hlow); [lia|].
  split; [done|]. intros body Hname.
  pose proof (serve_sequenced qs d Hd) as Hd'.
  assert (named_creation (POST body) = true) as Hnamed.
  { cbn [named_creation]. apply is_null_false in Hname. by rewrite Hname. }
  destruct (handle_next (POST body) (snd (serve qs d)) Hd') as [Ha _]; [lia..|].
  rewrite Hnamed in Ha.
  set (v := sqlite_sequence (snd (serve qs d)) + 1) in *.
  pose proof (assigned_sequence _ _ _ Ha) as (_ & Hfresh & _).
  assert (v ∉ assigned_ids qs d) as Hnew.
  { pose proof (assigned_ids_NoDup (qs ++ [POST body]) d) as Hnd.
    rewrite assigned_ids_app in Hnd. cbn [assigned_ids] in Hnd.
    rewrite Ha in Hnd. apply NoDup_app in Hnd as (_ & Hnd & _).
    intros Hin. apply (Hnd v Hin). apply list_elem_of_here. }
  pose proof Ha as Hw. cbn [assigned] in Hw. unfold post_items.
  destruct (run_insert (params_of body) (snd (serve qs d))) as [w d'|] eqn:E;
    [|done].
  injection Hw as Hw. subst w. unfold run_insert in E.
  destruct (new_rowid (snd (serve qs d))) as [w|]; [|done].
  destruct (is_null _); [done|]. injection E as Hw Hd''. subst w d'.
  exists v. eexists _, _, (params_of body).
  split; [exact Ha|]. split; [exact Hnew|]. split; [exact Hfresh|].
  split; [reflexivity|]. split.
  { intros Hid. rewrite lookup_union_r by done. apply lookup_singleton_eq. }
  split; [reflexivity|]. split.
  { intros r'. rewrite elem_of_run_select. cbn [items].
    rewrite lookup_insert_eq. split; congruence. }
  split; [|done]. intros c. apply cell_params_null.
Qed.

Lemma ids_are_never_reused_witness :
  sequenced stocked_db
  ∧ 0 ≤ sqlite_sequence stocked_db
  ∧ sqlite_sequence stocked_db + Z.of_nat (length Counter.turnover) < MAX_ROWID
  ∧ assigned_ids Counter.turnover stocked_db = [2; 3]
  ∧ NoDup (assigned_ids Counter.turnover stocked_db)
  ∧ Forall (λ v, sqlite_sequence stocked_db < v)
           (assigned_ids Counter.turnover stocked_db)
  ∧ (∀ body v,
       assigned (POST body) stocked_db = Some v →
       items stocked_db !! v = None
       ∧ ∃ r, (∀ r', (v, r') ∈ run_select (snd (post_items body stocked_db))
                     ↔ r' = r)
              ∧ (∀ c, cell c r = SNull ↔ bind (body !! column_key c) = SNull)
              ∧ (well_typed body = true → r = params_of body))
  ∧ length (assigned_ids Counter.turnover stocked_db)
    = length (List.filter named_creation Counter.turnover)
  ∧ ∀ body,
      bind (body !! "name") ≠ SNull →
      ∃ v d' data r,
        assigned (POST body) (snd (serve Counter.turnover stocked_db)) = Some v
        ∧ (v ∉ assigned_ids Counter.turnover stocked_db)
        ∧ items (snd (serve Counter.turnover stocked_db)) !! v = None
        ∧ post_items body (snd (serve Counter.turnover stocked_db))
          = (Created "success" data, d')
        ∧ (body !! "id" = None → data !! "id" = Some (JNum (of_Z v)))
        ∧ get_items d' = (Listed "success" (run_select d'), d')
        ∧ (∀ r', (v, r') ∈ run_select d' ↔ r' = r)
        ∧ (∀ c, cell c r = SNull ↔ bind (body !! column_key c) = SNull)
        ∧ (well_typed body = true → r = params_of body).
Proof.
  assert (0 ≤ sqlite_sequence stocked_db) as H0 by (vm_compute; discriminate).
  assert (sqlite_sequence stocked_db + Z.of_nat (length Counter.turnover)
          < MAX_ROWID) as Hs by (vm_compute; reflexivity).
  assert (assigned_ids Counter.turnover stocked_db = [2; 3]) as Hids
    by (vm_compute; reflexivity).
  destruct (ids_are_never_reused Counter.turnover stocked_db)
    as (H1 & H2 & H2' & H3).
  destruct (H3 stocked_db_sequenced H0 Hs) as (H4 & H5).
  split; [exact stocked_db_sequenced|]. split; [exact H0|]. split; [exact Hs|].
  split; [exact Hids|]. split; [exact H1|]. split; [exact H2|].
  split; [exact H2'|]. split; [exact H4|exact H5].
Defined.

(** C10.  A body field that is [null] leaves the stored value of its
    column as it was, and no update turns a stored non-NULL value into
    NULL. *)
Theorem put_item_never_nulls (id0 : Z) (body : gmap string json) (d : db) (r : row) :
  items d !! id0 = Some r →
  ∃ r', items (snd (put_item id0 body d)) !! id0 = Some r'
      ∧ (∀ c, body !! column_key c = Some JNull → cell c r' = cell c r)
      ∧ (∀ c, cell c r ≠ SNull → cell c r' ≠ SNull).
Proof.
  intros Hr. unfold put_item, run_update. rewrite Hr.
  destruct (is_null _) eqn:E; simpl.
  - exists r. done.
  - exists (update_row (params_of body) r). split; [apply lookup_insert_eq|]. split.
    + intros c Hc. by rewrite cell_update_row, cell_params_of, Hc.
    + intros c Hc. rewrite cell_update_row. by apply COALESCE_not_null.
Qed.

Lemma put_item_never_nulls_witness :
  items stocked_db !! 1 = Some beef_row
  ∧ ∃ r', items (snd (put_item 1 nulls stocked_db)) !! 1 = Some r'
        ∧ (∀ c, nulls !! column_key c = Some JNull → cell c r' = cell c beef_row)
        ∧ (∀ c, cell c beef_row ≠ SNull → cell c r' ≠ SNull).
Proof.
  assert (items stocked_db !! 1 = Some beef_row) as Hr by (vm_compute; reflexivity).
  split; [exact Hr|]. exact (put_item_never_nulls 1 nulls stocked_db beef_row Hr).
Defined.

End ServerFacts.

(** ** More about the routes *)

Module ServerMore.
Import Server ServerFacts Invariant Typing Examples.

Lemma update_row_idempotent (params r : row) :
  update_row params (update_row params r) = update_row params r.
Proof.
  destruct params as [p1 p2 p3 p4 p5 p6 p7]. unfold update_row. simpl.
  f_equal; by match goal with |- COALESCE ?p _ = _ => destruct p end.
Qed.

Lemma db_eq (d1 d2 : db) :
  items d1 = items d2 → sqlite_sequence d1 = sqlite_sequence d2 → d1 = d2.
Proof. destruct d1, d2. simpl. by intros -> ->. Qed.

Lemma handle_keeps_names (q : request) (d : db) :
  all_named d → all_named (snd (handle q d)).
Proof.
  unfold all_named. intros Hd. destruct q as [body|id0 body|id0]; simpl.
  - unfold post_items, run_insert. destruct (new_rowid d) as [v|]; [|done].
    destruct (is_null _) eqn:E; [done|]. simpl. intros k r Hk.
    destruct (decide (v = k)) as [->|Hne].
    + rewrite lookup_insert_eq in Hk. injection Hk as <-. by apply is_null_false.
    + rewrite lookup_insert_ne in Hk by done. by eapply Hd.
  - unfold put_item, run_update. destruct (items d !! id0) as [r0|]; [|done].
    destruct (is_null _) eqn:E; [done|]. simpl. intros k r Hk.
    destruct (decide (id0 = k)) as [->|Hne].
    + rewrite lookup_insert_eq in Hk. injection Hk as <-. by apply is_null_false.
    + rewrite lookup_insert_ne in Hk by done. by eapply Hd.
  - unfold delete_item, run_delete. destruct (items d !! id0) as [r0|]; [|done].
    simpl. intros k r Hk. apply lookup_delete_Some in Hk as [_ Hk]. by eapply Hd.
Qed.

(** X1.  The [NOT NULL] constraint is an invariant of the routes: from a
    table in which every name is a value, no sequence of requests, whatever
    the bodies, leads to one with a NULL name. *)
Theorem serve_keeps_names (qs : list request) (d : db) :
  all_named d → all_named (snd (serve qs d)).
Proof.
  revert d. induction qs as [|q qs IH]; intros d Hd; [done|].
  rewrite serve_snd. by apply IH, handle_keeps_names.
Qed.

Lemma fresh_db_all_named : all_named fresh_db.
Proof. intros k r Hk. simpl in Hk. by rewrite lookup_empty in Hk. Qed.

Lemma serve_keeps_names_witness :
  all_named fresh_db
  ∧ all_named (snd (serve [POST nameless; POST beef; PUT 1 nulls; DELETE 2] fresh_db)).
Proof.
  split; [exact fresh_db_all_named|].
  exact (serve_keeps_names [POST nameless; POST beef; PUT 1 nulls; DELETE 2]
           fresh_db fresh_db_all_named).
Defined.

Lemma assigned_ids_fresh (qs : list request) :
  ∀ d, sequenced d → ∀ v, v ∈ assigned_ids qs d → items d !! v = None.
Proof.
  intros d Hd v Hv.
  pose proof (assigned_ids_above qs d) as Habove.
  rewrite Forall_forall in Habove. specialize (Habove v Hv).
  destruct (items d !! v) eqn:E; [|done].
  specialize (Hd v). rewrite E in Hd. specialize (Hd (mk_is_Some _ _ eq_refl)). lia.
Qed.

(** X2.  In a table whose keys are all at most the [AUTOINCREMENT] counter,
    as SQLite keeps it, this remains so after every sequence of requests,
    and no key given to a created row along the way was a key of the
    table at the start. *)
Theorem serve_keeps_sequenced (qs : list request) (d : db) :
  sequenced d →
  sequenced (snd (serve qs d))
  ∧ ∀ v, v ∈ assigned_ids qs d → items d !! v = None.
Proof.
  intros Hd. split; [|by apply assigned_ids_fresh].
  revert d Hd. induction qs as [|q qs IH]; intros d Hd; [done|].
  rewrite serve_snd. by apply IH, handle_keeps_sequenced.
Qed.

Lemma serve_keeps_sequenced_witness :
  sequenced stocked_db
  ∧ sequenced (snd (serve [DELETE 1; POST beef; POST only_name] stocked_db))
  ∧ ∀ v, v ∈ assigned_ids [DELETE 1; POST beef; POST only_name] stocked_db →
         items stocked_db !! v = None.
Proof.
  split; [exact stocked_db_sequenced|].
  exact (serve_keeps_sequenced [DELETE 1; POST beef; POST only_name]
           stocked_db stocked_db_sequenced).
Defined.

(** X3.  An update of a stored item sets every column for which the body
    carries a value of the column's type that is not null, a string for a
    text column and a number for a number column, to exactly that value,
    and never touches the set of keys. *)
Theorem put_item_sets_given_fields
    (id0 : Z) (body : gmap string json) (d : db) (r : row) :
  items d !! id0 = Some r →
  name r ≠ SNull →
  ∃ r', items (snd (put_item id0 body d)) !! id0 = Some r'
      ∧ (∀ c s, body !! column_key c = Some (JStr s) →
                typed c (JStr s) = true → cell c r' = SText s)
      ∧ (∀ c x, body !! column_key c = Some (JNum x) →
                typed c (JNum x) = true → is_nan x = false →
                cell c r' = SReal x)
      ∧ ∀ k, is_Some (items (snd (put_item id0 body d)) !! k)
             ↔ is_Some (items d !! k).
Proof.
  intros Hr Hn. unfold put_item. rewrite (run_update_present _ _ _ _ Hr Hn).
  simpl. eexists. split; [apply lookup_insert_eq|]. split; [|split].
  - intros c s Hc _. by rewrite cell_update_row, cell_params_of, Hc.
  - intros c x Hc _ Hx. rewrite cell_update_row, cell_params_of, Hc.
    cbn [bind]. by rewrite Hx.
  - intros k. destruct (decide (id0 = k)) as [->|Hne].
    + rewrite lookup_insert_eq, Hr. split; eauto.
    + by rewrite lookup_insert_ne.
Qed.

Lemma put_item_sets_given_fields_witness :
  items stocked_db !! 1 = Some beef_row
  ∧ name beef_row ≠ SNull
  ∧ ∃ r', items (snd (put_item 1 restock stocked_db)) !! 1 = Some r'
        ∧ (∀ c s, restock !! column_key c = Some (JStr s) →
                  typed c (JStr s) = true → cell c r' = SText s)
        ∧ (∀ c x, restock !! column_key c = Some (JNum x) →
                  typed c (JNum x) = true → is_nan x = false →
                  cell c r' = SReal x)
        ∧ ∀ k, is_Some (items (snd (put_item 1 restock stocked_db)) !! k)
               ↔ is_Some (items stocked_db !! k).
Proof.
  assert (items stocked_db !! 1 = Some beef_row) as Hr by (vm_compute; reflexivity).
  assert (name beef_row ≠ SNull) as Hn by (vm_compute; discriminate).
  split; [exact Hr|]. split; [exact Hn|].
  exact (put_item_sets_given_fields 1 restock stocked_db beef_row Hr Hn).
Defined.

Lemma put_item_cases (id0 : Z) (body : gmap string json) (d : db) :
  put_item id0 body d =
    match items d !! id0 with
    | None => (Updated "success" body 0, d)
    | Some r =>
        if is_null (name (update_row (params_of body) r))
        then (Error400 "SQLITE_CONSTRAINT: NOT NULL constraint failed: items.name", d)
        else (Updated "success" body 1,
              {| items := <[id0 := update_row (params_of body) r]> (items d);
                 sqlite_sequence := sqlite_sequence d |})
    end.
Proof.
  unfold put_item, run_update. destruct (items d !! id0); [|done].
  by destruct (is_null _).
Qed.

(** X4.  Sending the same update twice is the same as sending it once: the
    second answer and the database after it are those of the first. *)
Theorem put_item_idempotent (id0 : Z) (body : gmap string json) (d : db) :
  put_item id0 body (snd (put_item id0 body d)) = put_item id0 body d.
Proof.
  rewrite (put_item_cases id0 body d).
  destruct (items d !! id0) as [r|] eqn:Hr.
  - destruct (is_null (name (update_row (params_of body) r))) eqn:E;
      cbn [snd]; rewrite put_item_cases; cbn [items sqlite_sequence].
    + by rewrite Hr, E.
    + by rewrite lookup_insert_eq, update_row_idempotent, E, insert_insert_eq.
  - cbn [snd]. by rewrite put_item_cases, Hr.
Qed.

(** X5.  Of two updates of a stored item the later one wins column by
    column: where both bodies give a column no value or one of its type,
    the column ends with the value of the second body if it has one that
    is not null, else with that of the first, else with what was stored. *)
Theorem put_item_twice
    (id0 : Z) (b1 b2 : gmap string json) (d : db) (r : row) :
  items d !! id0 = Some r →
  name r ≠ SNull →
  ∃ r', items (snd (put_item id0 b2 (snd (put_item id0 b1 d)))) !! id0 = Some r'
      ∧ ∀ c, typed_at c b1 = true → typed_at c b2 = true →
             cell c r' =
             COALESCE (bind (b2 !! column_key c))
               (COALESCE (bind (b1 !! column_key c)) (cell c r)).
Proof.
  intros Hr Hn. unfold put_item at 2. rewrite (run_update_present _ _ _ _ Hr Hn).
  simpl. unfold put_item.
  erewrite run_update_present; [| apply lookup_insert_eq |].
  - simpl. eexists. split; [apply lookup_insert_eq|].
    intros c _ _. by rewrite !cell_update_row, !cell_params_of.
  - simpl. by apply COALESCE_not_null.
Qed.

Lemma put_item_twice_witness :
  items stocked_db !! 1 = Some beef_row
  ∧ name beef_row ≠ SNull
  ∧ ∃ r', items (snd (put_item 1 nulls (snd (put_item 1 restock stocked_db)))) !! 1
          = Some r'
        ∧ ∀ c, typed_at c restock = true → typed_at c nulls = true →
               cell c r' =
               COALESCE (bind (nulls !! column_key c))
                 (COALESCE (bind (restock !! column_key c)) (cell c beef_row)).
Proof.
  assert (items stocked_db !! 1 = Some beef_row) as Hr by (vm_compute; reflexivity).
  assert (name beef_row ≠ SNull) as Hn by (vm_compute; discriminate).
  split; [exact Hr|]. split; [exact Hn|].
  exact (put_item_twice 1 restock nulls stocked_db beef_row Hr Hn).
Defined.

(** X6.  After a deletion the table has no row under that id, every other
    row is as it was and the counter has not moved; the answer counts one
    change if the id was stored and none if it was not, and a second
    deletion of the same id changes nothing. *)
Theorem delete_item_removes (id0 : Z) (d : db) :
  items (snd (delete_item id0 d)) !! id0 = None
  ∧ (∀ k, k ≠ id0 → items (snd (delete_item id0 d)) !! k = items d !! k)
  ∧ sqlite_sequence (snd (delete_item id0 d)) = sqlite_sequence d
  ∧ fst (delete_item id0 d)
    = Deleted "deleted" (match items d !! id0 with Some _ => 1 | None => 0 end)
  ∧ delete_item id0 (snd (delete_item id0 d))
    = (Deleted "deleted" 0, snd (delete_item id0 d)).
Proof.
  unfold delete_item at 1 2 3 4 6 7. unfold run_delete.
  destruct (items d !! id0) as [r|] eqn:Hr; simpl.
  - rewrite lookup_delete_eq. repeat split; try done.
    + intros k Hk. by rewrite lookup_delete_ne.
    + unfold delete_item, run_delete. simpl. by rewrite lookup_delete_eq.
  - repeat split; try done. unfold delete_item, run_delete. by rewrite Hr.
Qed.

(** X7.  Creating a row and deleting it again gives back the rows the table
    had, but not the counter: it stays at the key that was used, so that
    the next creation gets a larger one. *)
Theorem post_then_delete (body : gmap string json) (d : db) (v : Z) :
  assigned (POST body) d = Some v →
  items (snd (delete_item v (snd (post_items body d)))) = items d
  ∧ sqlite_sequence (snd (delete_item v (snd (post_items body d)))) = v
  ∧ sqlite_sequence d < v
  ∧ ∀ body' v',
      assigned (POST body') (snd (delete_item v (snd (post_items body d)))) = Some v' →
      v < v'.
Proof.
  intros Hv. pose proof (assigned_sequence _ _ _ Hv) as (Hlt & Hfresh & Hseq).
  simpl in Hv, Hseq. unfold post_items in *.
  destruct (run_insert (params_of body) d) as [w d'|] eqn:E; [|done].
  injection Hv as ->. simpl in *.
  unfold run_insert in E. destruct (new_rowid d); [|done].
  destruct (is_null _); [done|]. injection E as -> <-.
  unfold delete_item, run_delete. simpl. rewrite lookup_insert_eq. simpl.
  split; [by apply delete_insert_id|]. split; [done|]. split; [done|].
  intros body' v' Hv'.
  apply (assigned_sequence (POST body')) in Hv' as (Hlt' & _). simpl in Hlt'. done.
Qed.

Lemma post_then_delete_witness :
  assigned (POST beef) stocked_db = Some 2
  ∧ items (snd (delete_item 2 (snd (post_items beef stocked_db)))) = items stocked_db
  ∧ sqlite_sequence (snd (delete_item 2 (snd (post_items beef stocked_db)))) = 2
  ∧ sqlite_sequence stocked_db < 2
  ∧ ∀ body' v',
      assigned (POST body')
        (snd (delete_item 2 (snd (post_items beef stocked_db)))) = Some v' →
      2 < v'.
Proof.
  assert (assigned (POST beef) stocked_db = Some 2) as Hv by (vm_compute; reflexivity).
  split; [exact Hv|]. exact (post_then_delete beef stocked_db 2 Hv).
Defined.

(** X8.  The answer to a creation repeats every key of the body, each
    value as [res.json] carries it: a string, a boolean, [null] and a
    finite number as they came, a number that overflowed to an infinity
    as [null].  Its [id] is the key given to the row only if the body has
    no [id] of its own, otherwise it is the body's, which the table never
    sees. *)
Theorem post_items_echo (body : gmap string json) (d : db) (v : Z) :
  assigned (POST body) d = Some v →
  ∃ data d',
    post_items body d = (Created "success" data, d')
    ∧ (∀ key, key ≠ "id" →
              Wire.res_json <$> data !! key = Wire.res_json <$> body !! key)
    ∧ Wire.res_json <$> data !! "id"
      = Some (Wire.res_json (default (JNum (of_Z v)) (body !! "id")))
    ∧ ∀ k, is_Some (items d' !! k) ↔ k = v ∨ is_Some (items d !! k).
Proof.
  intros Hv. simpl in Hv. unfold post_items.
  destruct (run_insert (params_of body) d) as [w d'|] eqn:E; [|done].
  injection Hv as ->. eexists _, _. split; [done|].
  split; [|split].
  - intros key Hkey. rewrite lookup_union, lookup_singleton_ne by done.
    by destruct (body !! key).
  - rewrite lookup_union, lookup_singleton_eq. by destruct (body !! "id").
  - unfold run_insert in E. destruct (new_rowid d); [|done].
    destruct (is_null _); [done|]. injection E as -> <-. simpl. intros k.
    destruct (decide (v = k)) as [->|Hne].
    + rewrite lookup_insert_eq. split; eauto.
    + rewrite lookup_insert_ne by done. split; [eauto|]. intros [?|?]; [congruence|done].
Qed.

Lemma post_items_echo_witness :
  assigned (POST Counter.overflowing) stocked_db = Some 2
  ∧ ∃ data d',
      post_items Counter.overflowing stocked_db = (Created "success" data, d')
      ∧ (∀ key, key ≠ "id" →
                Wire.res_json <$> data !! key
                = Wire.res_json <$> Counter.overflowing !! key)
      ∧ Wire.res_json <$> data !! "id"
        = Some (Wire.res_json
                  (default (JNum (of_Z 2)) (Counter.overflowing !! "id")))
      ∧ ∀ k, is_Some (items d' !! k) ↔ k = 2 ∨ is_Some (items stocked_db !! k).
Proof.
  assert (assigned (POST Counter.overflowing) stocked_db = Some 2) as Hv
    by (vm_compute; reflexivity).
  split; [exact Hv|].
  exact (post_items_echo Counter.overflowing stocked_db 2 Hv).
Defined.

Lemma params_of_ext (b1 b2 : gmap string json) :
  (∀ c, b1 !! column_key c = b2 !! column_key c) → params_of b1 = params_of b2.
Proof.
  intros H. unfold params_of.
  pose proof (H c_name) as H1. pose proof (H c_category) as H2.
  pose proof (H c_unit) as H3. pose proof (H c_avgDailyUsage) as H4.
  pose proof (H c_maxDailyUsage) as H5. pose proof (H c_leadTime) as H6.
  pose proof (H c_currentStock) as H7. cbn [column_key] in *.
  by rewrite H1, H2, H3, H4, H5, H6, H7.
Qed.

(** X9.  The table sees nothing of a body but the seven column keys: two
    bodies that agree on them leave the same database behind, whether
    posted or put, whatever else they carry, an [id] included. *)
Theorem store_ignores_other_keys (id0 : Z) (b1 b2 : gmap string json) (d : db) :
  (∀ c, b1 !! column_key c = b2 !! column_key c) →
  snd (post_items b1 d) = snd (post_items b2 d)
  ∧ snd (put_item id0 b1 d) = snd (put_item id0 b2 d).
Proof.
  intros H. unfold post_items, put_item. rewrite (params_of_ext _ _ H). split.
  - by destruct (run_insert _ d).
  - by destruct (run_update _ id0 d).
Qed.

Lemma store_ignores_other_keys_witness :
  (∀ c, restock !! column_key c
        = (<["id" := JNum (of_Z 9)]> (<["note" := JStr "x"]> restock)) !! column_key c)
  ∧ snd (post_items restock stocked_db)
    = snd (post_items (<["id" := JNum (of_Z 9)]> (<["note" := JStr "x"]> restock))
             stocked_db)
  ∧ snd (put_item 1 restock stocked_db)
    = snd (put_item 1 (<["id" := JNum (of_Z 9)]> (<["note" := JStr "x"]> restock))
             stocked_db).
Proof.
  assert (∀ c, restock !! column_key c
               = (<["id" := JNum (of_Z 9)]> (<["note" := JStr "x"]> restock))
                   !! column_key c) as H by (intros []; vm_compute; reflexivity).
  split; [exact H|].
  exact (store_ignores_other_keys 1 restock _ stocked_db H).
Defined.

(** X10.  The listing never changes the database and holds every stored
    row exactly once, under its key, and nothing else. *)
Theorem get_items_lists_the_table (d : db) :
  ∃ data,
    get_items d = (Listed "success" data, d)
    ∧ NoDup (data.*1)
    ∧ ∀ k r, (k, r) ∈ data ↔ items d !! k = Some r.
Proof.
  eexists. split; [done|]. split.
  - unfold run_select. rewrite merge_sort_Permutation.
    apply NoDup_fst_map_to_list.
  - intros k r. apply elem_of_run_select.
Qed.

End ServerMore.

(** ** More about the client *)

Module ClientMore.
Import Client FloatFacts Wire Menu.

Lemma round2_nan (x : number) : is_nan (round2 x) = is_nan x.
Proof.
  destruct (is_nan x) eqn:E; [by destruct x|]. by apply round2_not_nan.
Qed.

(** X11.  Whatever the item, infinite and [NaN] fields included, the safety
    stock is never below zero; it is [NaN] exactly when the raw difference
    is, and otherwise at least zero. *)
Theorem calculateSafetyStock_never_negative (item : InventoryItem) :
  ltb (calculateSafetyStock item) (of_Z 0) = false
  ∧ is_nan (calculateSafetyStock item)
    = is_nan (maxDailyUsage item * leadTime item
              - avgDailyUsage item * leadTime item)%js
  ∧ nonneg (calculateSafetyStock item)
    = negb (is_nan (calculateSafetyStock item)).
Proof.
  rewrite <- (round2_nan (maxDailyUsage item * leadTime item
                          - avgDailyUsage item * leadTime item)%js).
  change (calculateSafetyStock item)
    with (Math_max (of_Z 0)
            (round2 (maxDailyUsage item * leadTime item
                     - avgDailyUsage item * leadTime item)%js)).
  generalize (round2 (maxDailyUsage item * leadTime item
                      - avgDailyUsage item * leadTime item)%js).
  intros [[]|[]| |[] m e]; by vm_compute.
Qed.

(** X12.  Rounding to two decimals gives [NaN] only for [NaN], and never
    takes a number to the other side of zero. *)
Theorem round2_keeps_sign (x : number) :
  is_nan (round2 x) = is_nan x
  ∧ (nonneg x = true → nonneg (round2 x) = true)
  ∧ (leb x (of_Z 0) = true → leb (round2 x) (of_Z 0) = true).
Proof.
  split; [apply round2_nan|]. split; [apply round2_nonneg|apply round2_nonpos].
Qed.

Lemma round2_below_half_cent (x : number) :
  below_half_cent x = true → Math_max (of_Z 0) (round2 x) = of_Z 0.
Proof.
  destruct x as [s|s| |s m e]; [|discriminate|discriminate|].
  - intros _. by destruct s.
  - unfold below_half_cent. intros H%Z.ltb_lt.
    assert (e < 0) as He.
    { destruct (Z.le_gt_cases 0 e) as [H0|H0]; [|done].
      assert (2 ^ (- e) ≤ 1).
      { destruct (Z.eq_dec e 0) as [->|]; [done|]. rewrite Z.pow_neg_r; lia. }
      lia. }
    assert (0 < 2 ^ (- e)) by (apply Z.pow_pos_nonneg; lia).
    unfold round2, toFixed, at_least_1e21, nearest_scaled.
    replace (0 <=? e) with false by (symmetry; apply Z.leb_gt; lia).
    replace (10 ^ 21 * 2 ^ (- e) <=? Z.pos m) with false.
    2:{ symmetry. apply Z.leb_gt.
        assert (1 ≤ 10 ^ 21) by done. nia. }
    replace (1 - e) with (Z.succ (- e)) by lia. rewrite Z.pow_succ_r by lia.
    rewrite Z.div_small.
    2:{ change (10 ^ 2) with 100. lia. }
    by destruct s.
Qed.

(** X13.  A raw difference of less than 0.005 in size, positive or
    negative, gives a safety stock of exactly 0. *)
Theorem calculateSafetyStock_below_half_cent (item : InventoryItem) :
  below_half_cent (maxDailyUsage item * leadTime item
                   - avgDailyUsage item * leadTime item)%js = true →
  calculateSafetyStock item = of_Z 0.
Proof. intros H. unfold calculateSafetyStock. by apply round2_below_half_cent. Qed.

Lemma calculateSafetyStock_below_half_cent_witness :
  below_half_cent
    (maxDailyUsage (ingredient (decimal 1 2) (decimal 14 3) (decimal 5 1) (of_Z 0))
     * leadTime (ingredient (decimal 1 2) (decimal 14 3) (decimal 5 1) (of_Z 0))
     - avgDailyUsage (ingredient (decimal 1 2) (decimal 14 3) (decimal 5 1) (of_Z 0))
       * leadTime (ingredient (decimal 1 2) (decimal 14 3) (decimal 5 1) (of_Z 0)))%js
    = true
  ∧ calculateSafetyStock
      (ingredient (decimal 1 2) (decimal 14 3) (decimal 5 1) (of_Z 0)) = of_Z 0.
Proof.
  assert (below_half_cent
    (maxDailyUsage (ingredient (decimal 1 2) (decimal 14 3) (decimal 5 1) (of_Z 0))
     * leadTime (ingredient (decimal 1 2) (decimal 14 3) (decimal 5 1) (of_Z 0))
     - avgDailyUsage (ingredient (decimal 1 2) (decimal 14 3) (decimal 5 1) (of_Z 0))
       * leadTime (ingredient (decimal 1 2) (decimal 14 3) (decimal 5 1) (of_Z 0)))%js
    = true) as H by (vm_compute; reflexivity).
  split; [exact H|].
  exact (calculateSafetyStock_below_half_cent _ H).
Defined.

(** *** The status against the stock level *)

Lemma leb_trans (x y z : number) :
  (x <= y)%js = true → (y <= z)%js = true → (x <= z)%js = true.
Proof.
  unfold leb, SFleb, SFcompare.
  destruct x as [[]|[]| |[] m1 e1], y as [[]|[]| |[] m2 e2],
           z as [[]|[]| |[] m3 e3]; try done;
    change (Pos.compare_cont Eq m1 m2) with (Pos.compare m1 m2);
    change (Pos.compare_cont Eq m2 m3) with (Pos.compare m2 m3);
    change (Pos.compare_cont Eq m1 m3) with (Pos.compare m1 m3);
    destruct (Z.compare_spec e1 e2), (Z.compare_spec e2 e3),
             (Z.compare_spec e1 e3); try done; try lia;
    destruct (Pos.compare_spec m1 m2), (Pos.compare_spec m2 m3),
             (Pos.compare_spec m1 m3); try done; lia.
Qed.

(** X21.  The status is monotone in the stock level: if an item is flagged
    ["Reorder Now"], it is still flagged with any smaller stock level, the
    other fields being the same. *)
Theorem getStatus_monotone_in_stock (item : InventoryItem) (less : number) :
  (less <= currentStock item)%js = true →
  status (getStatus item) = "Reorder Now" →
  status (getStatus (Edit.set_field Edit.k_currentStock less item)) = "Reorder Now".
Proof.
  intros Hless. unfold getStatus.
  change (calculateReorderPoint (Edit.set_field Edit.k_currentStock less item))
    with (calculateReorderPoint item).
  change (currentStock (Edit.set_field Edit.k_currentStock less item)) with less.
  generalize dependent (calculateReorderPoint item). intros rop.
  destruct (currentStock item <= rop)%js eqn:Hrop; [|done]. intros _.
  by rewrite (leb_trans less (currentStock item) rop Hless Hrop).
Qed.

Lemma getStatus_monotone_in_stock_witness :
  (decimal 35 1 <= currentStock (beef (of_Z 15)))%js = true
  ∧ status (getStatus (beef (of_Z 15))) = "Reorder Now"
  ∧ status (getStatus (Edit.set_field Edit.k_currentStock (decimal 35 1)
                         (beef (of_Z 15)))) = "Reorder Now".
Proof.
  assert ((decimal 35 1 <= currentStock (beef (of_Z 15)))%js = true) as Hless
    by (vm_compute; reflexivity).
  assert (status (getStatus (beef (of_Z 15))) = "Reorder Now") as Hrop
    by (vm_compute; reflexivity).
  split; [exact Hless|]. split; [exact Hrop|].
  exact (getStatus_monotone_in_stock (beef (of_Z 15)) (decimal 35 1) Hless Hrop).
Defined.

Lemma mul_nan (x y : number) :
  is_nan x = true ∨ is_nan y = true → is_nan (x * y)%js = true.
Proof.
  intros [H|H].
  - destruct x; try discriminate H. by destruct y.
  - destruct y; try discriminate H. by destruct x.
Qed.

Lemma sub_nan (x y : number) :
  is_nan x = true ∨ is_nan y = true → is_nan (x - y)%js = true.
Proof.
  intros [H|H].
  - destruct x; try discriminate H. by destruct y.
  - destruct y; try discriminate H. by destruct x.
Qed.

Lemma add_nan_r (x y : number) : is_nan y = true → is_nan (x + y)%js = true.
Proof. intros H. destruct y; try discriminate H. by destruct x. Qed.

Lemma Math_max_nan (x y : number) : is_nan y = true → is_nan (Math_max x y) = true.
Proof. intros H. destruct y; try discriminate H. by destruct x. Qed.

Lemma leb_nan (x y : number) :
  is_nan x = true ∨ is_nan y = true → (x <= y)%js = false.
Proof.
  intros [H|H].
  - destruct x; try discriminate H. by destruct y.
  - destruct y; try discriminate H. by destruct x.
Qed.

Ltac fold_round2 :=
  match goal with
  | |- context [parseFloat (toFixed ?x 2)] =>
      change (parseFloat (toFixed x 2)) with (round2 x)
  end.

(** X22.  An item with [NaN] for a usage or for its lead time has [NaN]
    for its safety stock and for its reorder point, and is never flagged:
    its status is ["OK"] whatever its stock level. *)
Theorem getStatus_of_nan (item : InventoryItem) :
  is_nan (avgDailyUsage item) = true
  ∨ is_nan (maxDailyUsage item) = true
  ∨ is_nan (leadTime item) = true →
  is_nan (calculateSafetyStock item) = true
  ∧ is_nan (calculateReorderPoint item) = true
  ∧ status (getStatus item) = "OK".
Proof.
  intros H.
  assert (is_nan (calculateSafetyStock item) = true) as Hss.
  { unfold calculateSafetyStock. apply Math_max_nan. cbv zeta. fold_round2.
    rewrite round2_nan. apply sub_nan. destruct H as [H|[H|H]].
    - right. apply mul_nan. by left.
    - left. apply mul_nan. by left.
    - left. apply mul_nan. by right. }
  assert (is_nan (calculateReorderPoint item) = true) as Hrop.
  { unfold calculateReorderPoint. cbv zeta. fold_round2. rewrite round2_nan.
    by apply add_nan_r. }
  split; [done|]. split; [done|]. unfold getStatus. cbv zeta.
  rewrite leb_nan; [done|by right].
Qed.

Lemma getStatus_of_nan_witness :
  (is_nan (avgDailyUsage (ingredient (of_Z 5) (of_Z 10) NaN (of_Z 15))) = true
   ∨ is_nan (maxDailyUsage (ingredient (of_Z 5) (of_Z 10) NaN (of_Z 15))) = true
   ∨ is_nan (leadTime (ingredient (of_Z 5) (of_Z 10) NaN (of_Z 15))) = true)
  ∧ is_nan (calculateSafetyStock (ingredient (of_Z 5) (of_Z 10) NaN (of_Z 15)))
    = true
  ∧ is_nan (calculateReorderPoint (ingredient (of_Z 5) (of_Z 10) NaN (of_Z 15)))
    = true
  ∧ status (getStatus (ingredient (of_Z 5) (of_Z 10) NaN (of_Z 15))) = "OK".
Proof.
  assert (is_nan (avgDailyUsage (ingredient (of_Z 5) (of_Z 10) NaN (of_Z 15))) = true
          ∨ is_nan (maxDailyUsage (ingredient (of_Z 5) (of_Z 10) NaN (of_Z 15)))
            = true
          ∨ is_nan (leadTime (ingredient (of_Z 5) (of_Z 10) NaN (of_Z 15))) = true)
    as H by (right; right; reflexivity).
  split; [exact H|].
  exact (getStatus_of_nan (ingredient (of_Z 5) (of_Z 10) NaN (of_Z 15)) H).
Defined.

(** *** The optimistic edit *)

Lemma optimistic_lookup (id0 : Z) (k : Edit.key) (value : Edit.field_type k)
    (l : list InventoryItem) (i : nat) :
  map (λ item, if Z.eqb (id item) id0 then Edit.set_field k value item else item) l
    !! i
  = (λ item, if Z.eqb (id item) id0 then Edit.set_field k value item else item)
      <$> l !! i.
Proof.
  apply (list_lookup_fmap _ l i).
Qed.

(** X14.  The optimistic edit keeps the length and the order of the list,
    leaves every item with another id exactly as it was, and an edit of
    the name, category, unit or stock level changes no item's safety stock
    or reorder point. *)
Theorem optimistic_edit_frame
    (id0 : Z) (k : Edit.key) (value : Edit.field_type k) (v : Edit.view) :
  length (Edit.items (fst (Edit.handleUpdate id0 k value v)))
  = length (Edit.items v)
  ∧ (∀ i item, Edit.items v !! i = Some item →
       Edit.items (fst (Edit.handleUpdate id0 k value v)) !! i
       = Some (if Z.eqb (id item) id0 then Edit.set_field k value item else item))
  ∧ (k ∉ [Edit.k_avgDailyUsage; Edit.k_maxDailyUsage; Edit.k_leadTime] →
     ∀ i item item',
       Edit.items v !! i = Some item →
       Edit.items (fst (Edit.handleUpdate id0 k value v)) !! i = Some item' →
       calculateSafetyStock item' = calculateSafetyStock item
       ∧ calculateReorderPoint item' = calculateReorderPoint item).
Proof.
  cbn [fst Edit.handleUpdate Edit.optimistic Edit.setItems Edit.items].
  split; [apply length_map|]. split.
  - intros i item Hi. by rewrite optimistic_lookup, Hi.
  - intros Hk i item item' Hi Hi'. rewrite optimistic_lookup, Hi in Hi'.
    injection Hi' as <-. destruct (Z.eqb (id item) id0); [|done].
    destruct k; try done; exfalso; apply Hk; set_solver.
Qed.

(** *** Edits, deletions and creations against the server *)

Lemma row_of_item_set_field (k : Edit.key) (value : Edit.field_type k)
    (item : InventoryItem) :
  k ≠ Edit.k_id →
  json_of_value k value ≠ Server.JNull →
  Server.update_row (Server.params_of (update_body k value)) (row_of_item item)
  = row_of_item (Edit.set_field k value item).
Proof.
  intros Hk Hj. destruct k; try done; try reflexivity;
    simpl in value; destruct value as [s|s| |s m e]; try done; reflexivity.
Qed.

Lemma handleUpdate_served_Online
    (id0 : Z) (k : Edit.key) (value : Edit.field_type k)
    (v : Edit.view) (d : Server.db) :
  handleUpdate_served id0 k value Online v d
  = (Edit.optimistic id0 k value v,
     snd (Server.put_item id0 (update_body k value) d)).
Proof.
  unfold handleUpdate_served.
  by destruct (Server.put_item id0 (update_body k value) d).
Qed.

Lemma handleDelete_Online (id0 : Z) (v : Edit.view) (d : Server.db) :
  handleDelete id0 Online v d
  = (Edit.setItems
       (List.filter (λ i, negb (Z.eqb (id i) id0)) (Edit.items v)) v,
     {| Server.items := delete id0 (Server.items d);
        Server.sqlite_sequence := Server.sqlite_sequence d |}).
Proof.
  unfold handleDelete, Server.delete_item, Server.run_delete.
  destruct (Server.items d !! id0) as [r|] eqn:Hr; cbn [message_of].
  - by destruct (decide (Some "deleted" = Some "deleted")).
  - destruct (decide (Some "deleted" = Some "deleted")); [|done].
    f_equal. apply ServerMore.db_eq; [|done]. cbn [Server.items].
    symmetry. by apply delete_id.
Qed.

(** X15.  A successful edit keeps view and table in step.  If every item
    shown under the id is stored as its row, the field is not the id and
    the value survives JSON (a text, or a finite number), then after the
    edit and its [PUT] every item shown under the id is again stored as
    its row, and no other row has changed. *)
Theorem handleUpdate_keeps_in_step
    (id0 : Z) (k : Edit.key) (value : Edit.field_type k)
    (v : Edit.view) (d : Server.db) :
  k ≠ Edit.k_id →
  json_of_value k value ≠ Server.JNull →
  (∀ item, item ∈ Edit.items v → id item = id0 →
           Server.items d !! id0 = Some (row_of_item item)) →
  (∀ item, item ∈ Edit.items (fst (handleUpdate_served id0 k value Online v d)) →
           id item = id0 →
           Server.items (snd (handleUpdate_served id0 k value Online v d)) !! id0
           = Some (row_of_item item))
  ∧ ∀ j, j ≠ id0 →
         Server.items (snd (handleUpdate_served id0 k value Online v d)) !! j
         = Server.items d !! j.
Proof.
  intros Hk Hj Hstep. rewrite handleUpdate_served_Online.
  rewrite ServerMore.put_item_cases.
  cbn [fst Edit.optimistic Edit.setItems Edit.items].
  split.
  - intros item' Hin Hid.
    apply list_elem_of_In, in_map_iff in Hin as (item & Heq & Hin).
    apply list_elem_of_In in Hin.
    destruct (Z.eqb_spec (id item) id0) as [Hid0|Hid0].
    + subst item'. rewrite (Hstep item Hin Hid0).
      rewrite row_of_item_set_field by done.
      destruct (Server.is_null _) eqn:Hnull.
      { exfalso. revert Hnull. by destruct item. }
      cbn [snd Server.items]. apply lookup_insert_eq.
    + subst item'. done.
  - intros j Hne. destruct (Server.items d !! id0) as [r|]; [|done].
    destruct (Server.is_null _); [done|]. cbn [snd Server.items].
    by rewrite lookup_insert_ne.
Qed.

Lemma handleUpdate_keeps_in_step_witness :
  Edit.k_currentStock ≠ Edit.k_id
  ∧ json_of_value Edit.k_currentStock (decimal 125 1) ≠ Server.JNull
  ∧ (∀ item, item ∈ Edit.items Counter.in_step → id item = 1 →
             Server.items Examples.stocked_db !! 1 = Some (row_of_item item))
  ∧ (∀ item,
       item ∈ Edit.items
                (fst (handleUpdate_served 1 Edit.k_currentStock (decimal 125 1)
                        Online Counter.in_step Examples.stocked_db)) →
       id item = 1 →
       Server.items
         (snd (handleUpdate_served 1 Edit.k_currentStock (decimal 125 1)
                 Online Counter.in_step Examples.stocked_db)) !! 1
       = Some (row_of_item item))
  ∧ ∀ j, j ≠ 1 →
         Server.items
           (snd (handleUpdate_served 1 Edit.k_currentStock (decimal 125 1)
                   Online Counter.in_step Examples.stocked_db)) !! j
         = Server.items Examples.stocked_db !! j.
Proof.
  assert (Edit.k_currentStock ≠ Edit.k_id) as Hk by discriminate.
  assert (json_of_value Edit.k_currentStock (decimal 125 1) ≠ Server.JNull) as Hj
    by (vm_compute; discriminate).
  assert (∀ item, item ∈ Edit.items Counter.in_step → id item = 1 →
            Server.items Examples.stocked_db !! 1 = Some (row_of_item item)) as Hstep.
  { intros item Hin _. apply list_elem_of_singleton in Hin as ->.
    vm_compute. reflexivity. }
  split; [exact Hk|]. split; [exact Hj|]. split; [exact Hstep|].
  exact (handleUpdate_keeps_in_step 1 Edit.k_currentStock (decimal 125 1)
           Counter.in_step Examples.stocked_db Hk Hj Hstep).
Defined.

Lemma update_row_nothing (k : Edit.key) (value : Edit.field_type k) (r : Server.row) :
  json_of_value k value = Server.JNull ∨ k = Edit.k_id →
  Server.update_row (Server.params_of (update_body k value)) r = r.
Proof.
  intros [Hj| ->]; destruct r; [|reflexivity].
  destruct k; try done; simpl in value;
    destruct value as [s|s| |s m e]; try done; reflexivity.
Qed.

(** X16.  An edit whose value does not survive JSON, [NaN] or an infinity
    in a numeric field, and any edit of the id, is shown by the view but
    never reaches the table: the database after the [PUT] is the database
    before it. *)
Theorem handleUpdate_not_stored
    (id0 : Z) (k : Edit.key) (value : Edit.field_type k)
    (v : Edit.view) (d : Server.db) :
  json_of_value k value = Server.JNull ∨ k = Edit.k_id →
  snd (handleUpdate_served id0 k value Online v d) = d
  ∧ fst (handleUpdate_served id0 k value Online v d)
    = Edit.optimistic id0 k value v.
Proof.
  intros H. rewrite handleUpdate_served_Online, ServerMore.put_item_cases.
  cbn [fst snd]. split; [|done].
  destruct (Server.items d !! id0) as [r|] eqn:Hr; [|done].
  rewrite (update_row_nothing k value r H).
  destruct (Server.is_null (Server.name r)); [done|]. cbn [snd].
  apply ServerMore.db_eq; [|done]. cbn [Server.items]. by apply insert_id.
Qed.

Lemma handleUpdate_not_stored_witness :
  (json_of_value Edit.k_leadTime NaN = Server.JNull ∨ Edit.k_leadTime = Edit.k_id)
  ∧ snd (handleUpdate_served 1 Edit.k_leadTime NaN Online
           Counter.in_step Examples.stocked_db) = Examples.stocked_db
  ∧ fst (handleUpdate_served 1 Edit.k_leadTime NaN Online
           Counter.in_step Examples.stocked_db)
    = Edit.optimistic 1 Edit.k_leadTime NaN Counter.in_step.
Proof.
  assert (json_of_value Edit.k_leadTime NaN = Server.JNull
          ∨ Edit.k_leadTime = Edit.k_id) as H by (left; reflexivity).
  split; [exact H|].
  exact (handleUpdate_not_stored 1 Edit.k_leadTime NaN
           Counter.in_step Examples.stocked_db H).
Defined.

(** X17.  With the server reached, [handleDelete] always takes the item
    out of the list, stored or not: the list keeps exactly the items of
    another id, in their order, and the table no longer has the id; with
    the server not reached, list and table stay as they were and the error
    is logged. *)
Theorem handleDelete_removes (id0 : Z) (v : Edit.view) (d : Server.db) :
  (Edit.items (fst (handleDelete id0 Online v d))
   = List.filter (λ i, negb (Z.eqb (id i) id0)) (Edit.items v)
   ∧ (∀ item, item ∈ Edit.items (fst (handleDelete id0 Online v d))
              ↔ item ∈ Edit.items v ∧ id item ≠ id0)
   ∧ Server.items (snd (handleDelete id0 Online v d)) !! id0 = None
   ∧ ∀ j, j ≠ id0 →
          Server.items (snd (handleDelete id0 Online v d)) !! j
          = Server.items d !! j)
  ∧ ∀ reason,
      Edit.items (fst (handleDelete id0 (Offline reason) v d)) = Edit.items v
      ∧ snd (handleDelete id0 (Offline reason) v d) = d
      ∧ Edit.console (fst (handleDelete id0 (Offline reason) v d))
        = Edit.console v ++ ["Error deleting item: " +:+ reason].
Proof.
  split; [|done]. rewrite handleDelete_Online.
  cbn [fst snd Edit.setItems Edit.items Server.items].
  split; [done|]. split; [|split].
  - intros item. rewrite !list_elem_of_In, filter_In, negb_true_iff, Z.eqb_neq. done.
  - apply lookup_delete_eq.
  - intros j Hne. by apply lookup_delete_ne.
Qed.

(** X18.  If the list shows exactly the ids the table holds, it still does
    after [handleDelete] has reached the server. *)
Theorem handleDelete_keeps_in_step (id0 : Z) (v : Edit.view) (d : Server.db) :
  (∀ j, (∃ item, item ∈ Edit.items v ∧ id item = j)
        ↔ is_Some (Server.items d !! j)) →
  ∀ j, (∃ item, item ∈ Edit.items (fst (handleDelete id0 Online v d)) ∧ id item = j)
       ↔ is_Some (Server.items (snd (handleDelete id0 Online v d)) !! j).
Proof.
  intros Hstep j. rewrite handleDelete_Online.
  cbn [fst snd Edit.setItems Edit.items Server.items].
  assert (∀ item, item ∈ List.filter (λ i, negb (Z.eqb (id i) id0)) (Edit.items v)
                  ↔ item ∈ Edit.items v ∧ id item ≠ id0) as Hin.
  { intros item. rewrite !list_elem_of_In, filter_In, negb_true_iff, Z.eqb_neq. done. }
  destruct (decide (j = id0)) as [->|Hne].
  - rewrite lookup_delete_eq. split.
    + intros (item & Hitem & Hid). apply Hin in Hitem as [_ ?]. done.
    + intros [? ?]. done.
  - rewrite lookup_delete_ne by done. rewrite <- Hstep. split.
    + intros (item & Hitem & Hid). apply Hin in Hitem as [? _]. eauto.
    + intros (item & Hitem & Hid). exists item. split; [|done].
      apply Hin. split; [done|]. congruence.
Qed.

Lemma handleDelete_keeps_in_step_witness :
  (∀ j, (∃ item, item ∈ Edit.items Counter.in_step ∧ id item = j)
        ↔ is_Some (Server.items Examples.stocked_db !! j))
  ∧ ∀ j, (∃ item, item ∈ Edit.items
                            (fst (handleDelete 1 Online Counter.in_step
                                    Examples.stocked_db))
                  ∧ id item = j)
         ↔ is_Some (Server.items
                      (snd (handleDelete 1 Online Counter.in_step
                              Examples.stocked_db)) !! j).
Proof.
  assert (∀ j, (∃ item, item ∈ Edit.items Counter.in_step ∧ id item = j)
               ↔ is_Some (Server.items Examples.stocked_db !! j)) as Hstep.
  { intros j. cbn [Counter.in_step Edit.items Examples.stocked_db Server.items].
    split.
    - intros (item & Hin & <-). apply list_elem_of_singleton in Hin as ->.
      cbn. rewrite lookup_singleton_eq. eauto.
    - intros [r Hr]. apply lookup_singleton_Some in Hr as [<- _].
      eexists. split; [apply list_elem_of_singleton; reflexivity|reflexivity]. }
  split; [exact Hstep|].
  exact (handleDelete_keeps_in_step 1 Counter.in_step Examples.stocked_db Hstep).
Defined.

(** *** The form for a new item *)

Lemma params_of_new_body (newItem : Form.NewItem) :
  Server.params_of (Form.new_body newItem)
  = {| Server.name := Server.SText (Form.or_else (Form.name newItem) "New Item");
       Server.category :=
         Server.SText (Form.or_else (Form.category newItem) "General");
       Server.unit := Server.SText (Form.or_else (Form.unit newItem) "unit");
       Server.avgDailyUsage :=
         Server.bind (Some (json_of_number (Form.Number (Form.avgDailyUsage newItem))));
       Server.maxDailyUsage :=
         Server.bind (Some (json_of_number (Form.Number (Form.maxDailyUsage newItem))));
       Server.leadTime :=
         Server.bind (Some (json_of_number (Form.Number (Form.leadTime newItem))));
       Server.currentStock :=
         Server.bind (Some (json_of_number (Form.Number (Form.currentStock newItem))))
    |}.
Proof.
  unfold Server.params_of, Form.new_body.
  repeat (first [ rewrite lookup_insert_eq
                | rewrite lookup_insert_ne by done
                | rewrite lookup_singleton_eq ]).
  reflexivity.
Qed.

Lemma falsy_false (s : option string) :
  Form.falsy s = false ↔ ∃ t, s = Some t ∧ t ≠ "".
Proof.
  unfold Form.falsy. destruct s as [t|].
  - destruct (decide (t = "")) as [->|Hne].
    + split; [done|]. by intros (t & [= <-] & ?).
    + split; [eauto|done].
  - split; [done|]. by intros (t & ? & _).
Qed.

Lemma handleAddItem_Online (newItem : Form.NewItem) (d : Server.db) :
  Form.falsy (Form.name newItem) = false →
  Form.handleAddItem newItem Online d
  = match Server.new_rowid d with
    | Some v =>
        {| Form.newItem_after := Form.blank; Form.fetchItems_called := true;
           Form.logged := [];
           Form.db_after :=
             {| Server.items :=
                  <[v := Server.params_of (Form.new_body newItem)]> (Server.items d);
                Server.sqlite_sequence := v |} |}
    | None =>
        {| Form.newItem_after := newItem; Form.fetchItems_called := false;
           Form.logged := []; Form.db_after := d |}
    end.
Proof.
  intros Hname. unfold Form.handleAddItem. rewrite Hname.
  unfold Server.post_items, Server.run_insert.
  destruct (Server.new_rowid d) as [v|]; [|done].
  rewrite params_of_new_body. cbn [Server.name Server.is_null message_of].
  by destruct (decide (Some "success" = Some "success")).
Qed.

(** X19.  With a name typed in, the server reached and a key left to give,
    [handleAddItem] stores one new row under a key the table did not hold,
    changes no other row, resets the form and asks for the list again.
    The stored name is the name typed, never the ["New Item"] default; an
    empty or missing category or unit is stored as ["General"] or
    ["unit"]. *)
Theorem handleAddItem_stores (newItem : Form.NewItem) (d : Server.db) (v : Z) :
  Form.falsy (Form.name newItem) = false →
  Server.new_rowid d = Some v →
  Server.items d !! v = None
  ∧ (∃ r, Server.items (Form.db_after (Form.handleAddItem newItem Online d)) !! v
          = Some r
          ∧ Some (Server.name r) = Server.SText <$> Form.name newItem
          ∧ Server.category r
            = Server.SText (Form.or_else (Form.category newItem) "General")
          ∧ Server.unit r = Server.SText (Form.or_else (Form.unit newItem) "unit"))
  ∧ (∀ j, j ≠ v →
          Server.items (Form.db_after (Form.handleAddItem newItem Online d)) !! j
          = Server.items d !! j)
  ∧ Form.newItem_after (Form.handleAddItem newItem Online d) = Form.blank
  ∧ Form.fetchItems_called (Form.handleAddItem newItem Online d) = true
  ∧ Form.logged (Form.handleAddItem newItem Online d) = [].
Proof.
  intros Hname Hv. rewrite (handleAddItem_Online newItem d Hname), Hv.
  cbn [Form.db_after Form.newItem_after Form.fetchItems_called Form.logged
       Server.items].
  split; [by apply ServerFacts.new_rowid_fresh|]. split; [|split; [|done]].
  - eexists. split; [apply lookup_insert_eq|]. rewrite params_of_new_body.
    cbn [Server.name Server.category Server.unit]. split; [|done].
    apply falsy_false in Hname as (t & -> & Hne). unfold Form.or_else.
    by destruct (decide (t = "")).
  - intros j Hne. by rewrite lookup_insert_ne.
Qed.

Lemma handleAddItem_stores_witness :
  Form.falsy (Form.name Counter.tofu_form) = false
  ∧ Server.new_rowid Examples.stocked_db = Some 2
  ∧ Server.items Examples.stocked_db !! 2 = None
  ∧ (∃ r, Server.items
            (Form.db_after
               (Form.handleAddItem Counter.tofu_form Online Examples.stocked_db))
            !! 2 = Some r
          ∧ Some (Server.name r) = Server.SText <$> Form.name Counter.tofu_form
          ∧ Server.category r
            = Server.SText (Form.or_else (Form.category Counter.tofu_form) "General")
          ∧ Server.unit r
            = Server.SText (Form.or_else (Form.unit Counter.tofu_form) "unit"))
  ∧ (∀ j, j ≠ 2 →
          Server.items
            (Form.db_after
               (Form.handleAddItem Counter.tofu_form Online Examples.stocked_db))
            !! j
          = Server.items Examples.stocked_db !! j)
  ∧ Form.newItem_after
      (Form.handleAddItem Counter.tofu_form Online Examples.stocked_db)
    = Form.blank
  ∧ Form.fetchItems_called
      (Form.handleAddItem Counter.tofu_form Online Examples.stocked_db) = true
  ∧ Form.logged (Form.handleAddItem Counter.tofu_form Online Examples.stocked_db)
    = [].
Proof.
  assert (Form.falsy (Form.name Counter.tofu_form) = false) as Hname
    by (vm_compute; reflexivity).
  assert (Server.new_rowid Examples.stocked_db = Some 2) as Hv
    by (vm_compute; reflexivity).
  split; [exact Hname|]. split; [exact Hv|].
  exact (handleAddItem_stores Counter.tofu_form Examples.stocked_db 2 Hname Hv).
Defined.

(** X20.  Whatever the form, the network and the database, [handleAddItem]
    ends in one of two ways.  Either a row was created: a name was typed,
    the server was reached, the form is reset and the list asked for again.
    Or nothing was stored: the database and the form are as they were and
    the list is not asked for; and then something is logged only when the
    server was not reached, so a creation the server refuses, and a form
    without a name, pass in silence. *)
Theorem handleAddItem_all_or_nothing
    (newItem : Form.NewItem) (net : network) (d : Server.db) :
  (Form.falsy (Form.name newItem) = false
   ∧ net = Online
   ∧ (∃ v, Server.new_rowid d = Some v
           ∧ Server.items (Form.db_after (Form.handleAddItem newItem net d))
             = <[v := Server.params_of (Form.new_body newItem)]> (Server.items d))
   ∧ Form.newItem_after (Form.handleAddItem newItem net d) = Form.blank
   ∧ Form.fetchItems_called (Form.handleAddItem newItem net d) = true
   ∧ Form.logged (Form.handleAddItem newItem net d) = [])
  ∨ (Form.db_after (Form.handleAddItem newItem net d) = d
     ∧ Form.newItem_after (Form.handleAddItem newItem net d) = newItem
     ∧ Form.fetchItems_called (Form.handleAddItem newItem net d) = false
     ∧ (Form.logged (Form.handleAddItem newItem net d) ≠ []
        ↔ Form.falsy (Form.name newItem) = false ∧ ∃ reason, net = Offline reason)).
Proof.
  destruct (Form.falsy (Form.name newItem)) eqn:Hname.
  - right. unfold Form.handleAddItem. rewrite Hname.
    cbn [Form.db_after Form.newItem_after Form.fetchItems_called Form.logged].
    repeat split; try done. by intros [? _].
  - destruct net as [|reason].
    + rewrite (handleAddItem_Online newItem d Hname).
      destruct (Server.new_rowid d) as [v|] eqn:Hv;
        cbn [Form.db_after Form.newItem_after Form.fetchItems_called Form.logged
             Server.items].
      * left. repeat split; try done. by exists v.
      * right. repeat split; try done. by intros (_ & ? & ?).
    + right. unfold Form.handleAddItem. rewrite Hname.
      cbn [Form.db_after Form.newItem_after Form.fetchItems_called Form.logged].
      repeat split; try done. eauto.
Qed.

End ClientMore.

